(** * The OP_CHECKDATASIG activation test driver

    A shallow embedding of [qa/rpc-tests/checkdatasig-activation.py]: the two
    transaction builders, the candidate-block construction and the scripted
    sequence of [get_tests], written as a program over the node's RPC
    interface.  Python integers are [Z]; a Python float is represented by the
    rational it stands for, tagged as a float; 256-bit hashes are [Z]. *)

From Stdlib Require Import ZArith QArith Qcanon Qround Lia String Ascii List.
From stdpp Require Import base list numbers strings sorting.
Import ListNotations.

Local Open Scope Z_scope.

(** ** Python exceptions and results *)

Inductive pyerr :=
| AssertionError (msg : string)
| ZeroDivisionError
| IndexError
| ValueError
| TypeError
| StructError                          (* struct.error raised by struct.pack *)
| TimeoutException (msg : string)
| JSONRPCException (code : Z) (msg : string)
| OutOfFuel.                           (* the model's loop budget ran out: the
                                          Python loop would still be running *)

Inductive result (A : Type) :=
| Ok (a : A)
| Raise (e : pyerr).
Arguments Ok {A} a.
Arguments Raise {A} e.

Global Instance result_ret : MRet result := λ A a, Ok a.
Global Instance result_bind : MBind result := λ A B f m,
  match m with Ok a => f a | Raise e => Raise e end.

Definition py_assert (b : bool) : result unit :=
  if b then Ok tt else Raise (AssertionError "").

(** ** Python numbers *)

Inductive pynum :=
| PyInt (z : Z)
| PyFloat (q : Qc).

Definition num_val (v : pynum) : Qc :=
  match v with PyInt z => Qc_of_Z z | PyFloat q => q end.

(** [isinstance(v, int)] *)
Definition is_int (v : pynum) : bool :=
  match v with PyInt _ => true | PyFloat _ => false end.

(** The number is a whole number, whatever its type ([2.0] is, [0.5] is not). *)
Definition integral (v : pynum) : Prop := ∃ z : Z, num_val v = Qc_of_Z z.

(** [a / b]: true division, always a float. *)
Definition py_truediv (a b : pynum) : result pynum :=
  if decide (num_val b = 0%Qc) then Raise ZeroDivisionError
  else Ok (PyFloat (num_val a / num_val b)%Qc).

(** [a // b] on integers: floor division. *)
Definition py_floordiv (a b : Z) : result Z :=
  if decide (b = 0) then Raise ZeroDivisionError else Ok (a / b).

(** [a < b]: Python compares an int with a float by value. *)
Definition py_lt (a b : pynum) : bool := bool_decide (num_val a < num_val b)%Qc.

(** [min(a, b)] keeps its first argument unless the second is smaller. *)
Definition py_min (a b : pynum) : pynum := if py_lt b a then b else a.

(** [a - b]: an int only when both operands are ints. *)
Definition py_sub (a b : pynum) : pynum :=
  match a, b with
  | PyInt x, PyInt y => PyInt (x - y)
  | _, _ => PyFloat (num_val a - num_val b)%Qc
  end.

(** [l[i]] with Python's negative indices. *)
Definition py_index {A} (l : list A) (i : Z) : result A :=
  let len := Z.of_nat (length l) in
  let j := if decide (i < 0) then i + len else i in
  if decide (0 ≤ j < len) then
    match l !! Z.to_nat j with Some x => Ok x | None => Raise IndexError end
  else Raise IndexError.

(** [l.pop()]: removes and returns the last item. *)
Definition py_pop {A} (l : list A) : result (A * list A) :=
  match last l with
  | Some x => Ok (x, removelast l)
  | None => Raise IndexError
  end.

(** ** Decimal amounts *)

Definition COIN : Z := 100000000.

(** [int(d)] on a decimal: rounds towards zero. *)
Definition int_of_decimal (d : Qc) : Z := Z.quot (Qnum d) (Zpos (Qden d)).

(** [satoshi_round(amount)]: quantize to eight places, [ROUND_DOWN]. *)
Definition satoshi_round (amount : Qc) : Qc :=
  (Qc_of_Z (int_of_decimal (amount * Qc_of_Z COIN)) / Qc_of_Z COIN)%Qc.

(** ** Byte strings *)

Definition hex_digit (c : ascii) : option N :=
  let k := N_of_ascii c in
  if decide (48 ≤ k ≤ 57)%N then Some (k - 48)%N
  else if decide (97 ≤ k ≤ 102)%N then Some (k - 87)%N
  else if decide (65 ≤ k ≤ 70)%N then Some (k - 55)%N
  else None.

(** [bytearray.fromhex(s)] *)
Fixpoint bytearray_fromhex (s : string) : result (list Byte.byte) :=
  match s with
  | EmptyString => Ok []
  | String a (String b rest) =>
      match hex_digit a, hex_digit b with
      | Some hi, Some lo =>
          match Byte.of_N (16 * hi + lo) with
          | Some byte => bs ← bytearray_fromhex rest; Ok (byte :: bs)
          | None => Raise ValueError
          end
      | _, _ => Raise ValueError
      end
  | String _ EmptyString => Raise ValueError
  end.

(** ** Scripts, transactions *)

Inductive opcode := OP_CHECKDATASIG | OP_RETURN | OP_TRUE.

(** The items [CScript([...])] is built from: a byte string is pushed as data,
    an opcode stands for itself, an int is pushed as a script number. *)
Inductive script_item :=
| Push (data : list Byte.byte)
| Opcode (op : opcode)
| Num (z : Z).

Definition CScript := list script_item.

Record COutPoint := mkOutPoint { hash : Z; n : Z }.
Record CTxIn := mkTxIn { prevout : COutPoint; scriptSig : CScript }.
Record CTxOut := mkTxOut { nValue : pynum; scriptPubKey : CScript }.
Record CTransaction := mkTx {
  vin : list CTxIn;
  vout : list CTxOut;
  sha256 : option Z        (* [None] until [rehash] *)
}.

Global Instance opcode_eq_dec : EqDecision opcode.
Proof. solve_decision. Defined.
Global Instance byte_eq_dec : EqDecision Byte.byte := Byte.byte_eq_dec.
Global Instance script_item_eq_dec : EqDecision script_item.
Proof. solve_decision. Defined.
Global Instance COutPoint_eq_dec : EqDecision COutPoint.
Proof. solve_decision. Defined.
Global Instance CTxIn_eq_dec : EqDecision CTxIn.
Proof. solve_decision. Defined.

(** [CTxIn(outpoint)]: the signature script defaults to empty. *)
Definition CTxIn_of (o : COutPoint) : CTxIn := mkTxIn o [].

(** What goes on the wire (the hex string of a transaction): amounts are
    64-bit signed integers, output indices 32-bit unsigned ones. *)
Record rawtx := mkRaw {
  raw_vin : list CTxIn;
  raw_vout : list (Z * CScript)
}.

Global Instance rawtx_eq_dec : EqDecision rawtx.
Proof. solve_decision. Defined.

(** [struct.pack("<q", v)] accepts an int that fits 64 bits, nothing else. *)
Definition pack_q (v : pynum) : result Z :=
  match v with
  | PyInt z => if decide (- 2 ^ 63 ≤ z < 2 ^ 63) then Ok z else Raise StructError
  | PyFloat _ => Raise StructError
  end.

(** [struct.pack("<I", i)] *)
Definition pack_I (i : Z) : result Z :=
  if decide (0 ≤ i < 2 ^ 32) then Ok i else Raise StructError.

Fixpoint ser_vout (outs : list CTxOut) : result (list (Z * CScript)) :=
  match outs with
  | [] => Ok []
  | o :: rest =>
      v ← pack_q (nValue o);
      r ← ser_vout rest;
      Ok ((v, scriptPubKey o) :: r)
  end.

Fixpoint ser_vin (ins : list CTxIn) : result (list CTxIn) :=
  match ins with
  | [] => Ok []
  | i :: rest =>
      _ ← pack_I (n (prevout i));
      r ← ser_vin rest;
      Ok (i :: r)
  end.

(** [ToHex(tx)] / [tx.toHex()] *)
Definition ToHex (tx : CTransaction) : result rawtx :=
  i ← ser_vin (vin tx);
  o ← ser_vout (vout tx);
  Ok (mkRaw i o).

(** [FromHex(CTransaction(), hex)] *)
Definition FromHex (hex : rawtx) : CTransaction :=
  mkTx (raw_vin hex) (map (λ p, mkTxOut (PyInt p.1) p.2) (raw_vout hex)) None.

(** The hash functions of the primitive codec. *)
Class Hashing := {
  hash_tx : rawtx → Z;                      (* double SHA-256 of the serialization *)
  calc_merkle : list Z → Z;                 (* Merkle root of transaction ids *)
  hash_header : Z → Z → Z → Z → Z           (* previous, Merkle root, time, nonce *)
}.

Section Builders.
Context `{Hashing}.

(** [tx.rehash()] *)
Definition rehash (tx : CTransaction) : result CTransaction :=
  hex ← ToHex tx;
  Ok (mkTx (vin tx) (vout tx) (Some (hash_tx hex))).

(** ** [create_checkdatasig_tx] *)

(** One entry of [listunspent]. *)
Record utxo := mkUtxo { utxo_txid : Z; utxo_vout : Z; utxo_amount : Qc }.

Definition signature_hex : string :=
  "30440220256c12175e809381f97637933ed6ab97737d263eaaebca6add21bced67fd12a402205ce29ecc1369d6fc1b51977ed38faaf41119e3be1d7edfafd7cfaf0b6061bd07".
Definition pubkey_hex : string :=
  "038282263212c609d9ea2a6e3e172de238d8c39cabd5ac1ca10646e23fd5f51508".

(** [min(v/100, 1000)], the fee both builders take off their first output. *)
Definition fee_of (v : pynum) : result pynum :=
  q ← py_truediv v (PyInt 100);
  Ok (py_min q (PyInt 1000)).

(** [tx.vout[0].nValue -= fee] *)
Definition deduct_first (outs : list CTxOut) (fee : pynum) : result (list CTxOut) :=
  match outs with
  | [] => Raise IndexError
  | o :: rest => Ok (mkTxOut (py_sub (nValue o) fee) (scriptPubKey o) :: rest)
  end.

(** Lines 46 to 60: the transaction as it stands before [tx.toHex()]. *)
Definition create_checkdatasig_tx_unsigned (utxos : list utxo) (count : Z)
  : result CTransaction :=
  _ ← py_assert (bool_decide (0 < length utxos)%nat);
  u ← py_index utxos 0;
  value ← py_floordiv (int_of_decimal (satoshi_round (utxo_amount u) * Qc_of_Z COIN)) count;
  let tx_vin := [CTxIn_of (mkOutPoint (utxo_txid u) (utxo_vout u))] in
  signature ← bytearray_fromhex signature_hex;
  message ← bytearray_fromhex "";
  pubkey ← bytearray_fromhex pubkey_hex;
  let outs := replicate (Z.to_nat count)
                (mkTxOut (PyInt value)
                   [Push signature; Push message; Push pubkey; Opcode OP_CHECKDATASIG]) in
  fee ← fee_of (PyInt value);
  outs' ← deduct_first outs fee;
  Ok (mkTx tx_vin outs' None).

(** ** [spend_checkdatasig] *)

Record PreviousSpendableOutput := mkPSO { pso_tx : CTransaction; pso_n : Z }.

(** [COutPoint(outpoint.tx.sha256, outpoint.n)]: a transaction that was never
    hashed has [sha256 = None], which the serialization in [rehash] refuses. *)
Definition outpoint_of (o : PreviousSpendableOutput) : result COutPoint :=
  match sha256 (pso_tx o) with
  | Some h => Ok (mkOutPoint h (pso_n o))
  | None => Raise TypeError
  end.

(** [rand] is the value of [random.getrandbits(800)]. *)
Definition spend_checkdatasig (rand : Z) (spendable_checkdatasigs : list PreviousSpendableOutput)
  : result (CTransaction * list PreviousSpendableOutput) :=
  '(outpoint, spendable') ← py_pop spendable_checkdatasigs;
  out ← py_index (vout (pso_tx outpoint)) (pso_n outpoint);
  op ← outpoint_of outpoint;
  let outs := [mkTxOut (nValue out) []; mkTxOut (PyInt 0) [Num rand; Opcode OP_RETURN]] in
  first ← py_index outs 0;
  fee ← fee_of (nValue first);
  outs' ← deduct_first outs fee;
  tx ← rehash (mkTx [CTxIn_of op] outs' None);
  Ok (tx, spendable').

(** Lines 87 to 90: the outputs of the funding transaction, in order. *)
Definition register_spendable (tx_hex : rawtx)
  : result (list PreviousSpendableOutput) :=
  tx ← rehash (FromHex tx_hex);
  Ok (map (λ i, mkPSO tx (Z.of_nat i)) (seq 0 (length (vout tx)))).

(** A run of calls, each with its own random value. *)
Fixpoint spend_many (rands : list Z) (spendable : list PreviousSpendableOutput)
  : result (list CTransaction * list PreviousSpendableOutput) :=
  match rands with
  | [] => Ok ([], spendable)
  | r :: rest =>
      '(tx, spendable') ← spend_checkdatasig r spendable;
      '(txs, final) ← spend_many rest spendable';
      Ok (tx :: txs, final)
  end.

End Builders.

(** ** Blocks *)

Record CBlock := mkBlock {
  hashPrevBlock : Z;
  hashMerkleRoot : Z;
  nTime : Z;
  nNonce : Z;
  vtx : list CTransaction;
  block_sha256 : option Z
}.

(** [uint256_from_compact(0x207fffff)], the proof-of-work limit of the
    regression-test network. *)
Definition regtest_target : Z := 0x7fffff * 2 ^ 232.

Section Blocks.
Context `{Hashing}.

(** [tx.calc_sha256()]: the cached identity when there is one. *)
Definition calc_sha256 (tx : CTransaction) : result Z :=
  match sha256 tx with
  | Some h => Ok h
  | None => hex ← ToHex tx; Ok (hash_tx hex)
  end.

Fixpoint tx_hashes (txs : list CTransaction) : result (list Z) :=
  match txs with
  | [] => Ok []
  | tx :: rest => h ← calc_sha256 tx; hs ← tx_hashes rest; Ok (h :: hs)
  end.

(** [block.calc_merkle_root()] *)
Definition calc_merkle_root (b : CBlock) : result Z :=
  hs ← tx_hashes (vtx b); Ok (calc_merkle hs).

(** [block.rehash()]: the header is serialized anew and hashed. *)
Definition block_rehash (b : CBlock) : result CBlock :=
  _ ← pack_I (nTime b);
  _ ← pack_I (nNonce b);
  Ok (mkBlock (hashPrevBlock b) (hashMerkleRoot b) (nTime b) (nNonce b) (vtx b)
        (Some (hash_header (hashPrevBlock b) (hashMerkleRoot b) (nTime b) (nNonce b)))).

Definition bump_nonce (b : CBlock) : CBlock :=
  mkBlock (hashPrevBlock b) (hashMerkleRoot b) (nTime b) (nNonce b + 1) (vtx b)
    (block_sha256 b).

(** [block.solve()]: [while self.sha256 > target: self.nNonce += 1; self.rehash()].
    [fuel] bounds the number of nonces tried. *)
Fixpoint solve_loop (fuel : nat) (b : CBlock) : result CBlock :=
  b ← block_rehash b;
  if bool_decide (hash_header (hashPrevBlock b) (hashMerkleRoot b) (nTime b) (nNonce b)
                  > regtest_target)
  then match fuel with
       | O => Raise OutOfFuel
       | S fuel' => solve_loop fuel' (bump_nonce b)
       end
  else Ok b.

Definition solve (fuel : nat) (b : CBlock) : result CBlock := solve_loop fuel b.

(** Modelled from the spec: [create_coinbase(height)] of the test framework,
    which is not part of the sources ("constructs a coinbase transaction for
    [height]"): one input that spends nothing and carries the height, one
    output with the block subsidy. *)
Definition create_coinbase (height : Z) : CTransaction :=
  mkTx [mkTxIn (mkOutPoint 0 0xffffffff) [Num height]]
       [mkTxOut (PyInt (Z.shiftr (50 * COIN) (height / 150))) [Opcode OP_TRUE]]
       None.

(** Modelled from the spec: [create_block(hashprev, coinbase, nTime)] of the
    test framework ("assembles a block with [previousHash], [timestamp],
    coinbase ..., recomputes Merkle root"). *)
Definition create_block (hashprev : Z) (coinbase : CTransaction) (block_time : Z)
  : result CBlock :=
  let b := mkBlock hashprev 0 block_time 0 [coinbase] None in
  root ← calc_merkle_root b;
  block_rehash (mkBlock hashprev root block_time 0 [coinbase] None).

(** [add_tx(block, tx)] *)
Definition add_tx (fuel : nat) (block : CBlock) (tx : CTransaction) : result CBlock :=
  let b := mkBlock (hashPrevBlock block) (hashMerkleRoot block) (nTime block)
             (nNonce block) (vtx block ++ [tx]) (block_sha256 block) in
  root ← calc_merkle_root b;
  solve fuel (mkBlock (hashPrevBlock b) root (nTime b) (nNonce b) (vtx b) (block_sha256 b)).

(** The header of [b] satisfies the proof-of-work target, and its cached
    identity is that of its header. *)
Definition pow_valid (b : CBlock) : Prop :=
  hash_header (hashPrevBlock b) (hashMerkleRoot b) (nTime b) (nNonce b) ≤ regtest_target
  ∧ block_sha256 b
    = Some (hash_header (hashPrevBlock b) (hashMerkleRoot b) (nTime b) (nNonce b)).

(** The Merkle root of [b] is the one of its present transaction list. *)
Definition merkle_valid (b : CBlock) : Prop :=
  calc_merkle_root b = Ok (hashMerkleRoot b).

End Blocks.

(** ** The driver as a program over the node interface *)

Record RejectResult := mkReject { reject_code : Z; reject_reason : string }.

(** What a test instance expects of its block: [True], [False] or a
    [RejectResult]. *)
Inductive expectation :=
| ExpectTrue
| ExpectFalse
| ExpectReject (r : RejectResult).

(** [TestInstance([[block, outcome]])] *)
Record TestInstance := mkInstance { blocks_and_transactions : list (CBlock * expectation) }.

(** The requests the driver makes: the node's RPCs, the hand-over of a test
    instance to the test manager, the random source and the pause between two
    polls (in milliseconds). *)
Inductive call :=
| Generate (count : Z)
| ListUnspent
| SignRawTransaction (hex : rawtx)
| SendRawTransaction (hex : rawtx)
| GetRawMempool
| SetMockTime (t : Z)
| GetBlockchainInfo
| GetBestBlockHash
| GetBlockHeader (h : Z)
| InvalidateBlock (h : Z)
| GetRandBits (k : Z)
| Sleep (ms : Z)
| Yield (inst : TestInstance).

Inductive reply :=
| RNone
| RUtxos (l : list utxo)
| RHex (hex : rawtx)                   (* signrawtransaction: the ["hex"] entry *)
| RHash (h : Z)                        (* a transaction or block identifier *)
| RHashes (l : list Z)
| RInfo (blocks : Z)                   (* getblockchaininfo: the ['blocks'] entry *)
| RHeader (mediantime : Z)             (* getblockheader: the ['mediantime'] entry *)
| RInt (z : Z)
| RError (code : Z) (msg : string)     (* the RPC raised JSONRPCException *)
| RResumed                             (* the manager asked for the next instance *)
| RAborted.                            (* the manager found a mismatch and stopped *)

Inductive prog (A : Type) :=
| Ret (a : A)
| Fail (e : pyerr)
| Call (c : call) (k : reply → prog A).
Arguments Ret {A} a.
Arguments Fail {A} e.
Arguments Call {A} c k.

Fixpoint prog_bind {A B} (f : A → prog B) (m : prog A) : prog B :=
  match m with
  | Ret a => f a
  | Fail e => Fail e
  | Call c k => Call c (λ r, prog_bind f (k r))
  end.

Global Instance prog_ret : MRet prog := λ A a, Ret a.
Global Instance prog_mbind : MBind prog := λ A B f m, prog_bind f m.

Definition lift {A} (m : result A) : prog A :=
  match m with Ok a => Ret a | Raise e => Fail e end.

(** An RPC whose error is not caught: the exception ends the test. *)
Definition rpc (c : call) : prog reply :=
  Call c (λ r, match r with
               | RError code msg => Fail (JSONRPCException code msg)
               | _ => Ret r
               end).

(** [time.sleep(ms)] *)
Definition sleep (ms : Z) : prog unit := Call (Sleep ms) (λ _, Ret tt).

(** [yield instance]: the generator runs on only when the manager resumes it. *)
Definition yield (inst : TestInstance) : prog unit :=
  Call (Yield inst) (λ r, match r with
                          | RResumed => Ret tt
                          | _ => Fail (AssertionError "Test failed")
                          end).

Definition as_utxos (r : reply) : prog (list utxo) :=
  match r with RUtxos l => Ret l | _ => Fail TypeError end.
Definition as_hex (r : reply) : prog rawtx :=
  match r with RHex h => Ret h | _ => Fail TypeError end.
Definition as_hash (r : reply) : prog Z :=
  match r with RHash h => Ret h | _ => Fail TypeError end.
Definition as_hashes (r : reply) : prog (list Z) :=
  match r with RHashes l => Ret l | _ => Fail TypeError end.
Definition as_blocks (r : reply) : prog Z :=
  match r with RInfo b => Ret b | _ => Fail TypeError end.
Definition as_mediantime (r : reply) : prog Z :=
  match r with RHeader m => Ret m | _ => Fail TypeError end.
Definition as_int (r : reply) : prog Z :=
  match r with RInt z => Ret z | _ => Fail TypeError end.

(** [assert(cond)] and [assert_equal(a, b)] *)
Definition assert_ (b : bool) : prog unit := lift (py_assert b).
Definition assert_equal (a b : Z) : prog unit := assert_ (bool_decide (a = b)).

(** What the sources take from the test framework without defining it. *)
Class Framework := {
  (** how [assert_raises_rpc_error] compares the expected message (first) with
      the one the node sent *)
  message_matches : string → string → bool;
  (** the pause of [waitFor] between two polls, in milliseconds *)
  sleepAmt : Z;
  (** how many nonces [solve] may try *)
  pow_fuel : nat
}.

(** far into the future *)
Definition NOV152018_START_TIME : Z := 2000000000.

(** Error due to invalid opcodes *)
Definition BAD_OPCODE_ERROR : string :=
  "mandatory-script-verify-flag-failed (Opcode missing or not understood)".
Definition RPC_BAD_OPCODE_ERROR : string := String.append "16: " BAD_OPCODE_ERROR.

Section Driver.
Context `{Hashing} `{Framework}.

(** Modelled from the spec: [assert_raises_rpc_error(code, message, fun, args)]
    of the test framework, which is not part of the sources ("expect a
    specific rejection ... identified by a fixed numeric code and fixed
    message text"; "any mismatch in reject code/message ... is a hard test
    failure"). *)
Definition assert_raises_rpc_error (code : Z) (message : string) (c : call) : prog unit :=
  Call c (λ r, match r with
               | RError code' message' =>
                   if bool_decide (code = code') then
                     if message_matches message message' then Ret tt
                     else Fail (AssertionError "Expected message not found")
                   else Fail (AssertionError "Unexpected JSONRPC error code")
               | _ => Fail (AssertionError "No exception raised")
               end).

(** Modelled from the spec: [waitFor(timeout, fn, onError)] of the test
    framework, which is not part of the sources ("bounded by a fixed timeout
    ..., polled at short fixed intervals; exceeding the bound is a failure,
    not a retry-forever condition").  [fn] is polled, then the driver sleeps
    [sleepAmt], as long as time is left; [sleeps] is the number of pauses that
    fit into the timeout. *)
Fixpoint waitFor_loop (sleeps : nat) (fn : prog bool) (onError : string) : prog unit :=
  ok ← fn;
  if ok : bool then Ret tt
  else match sleeps with
       | O => Fail (TimeoutException onError)
       | S rest => _ ← sleep sleepAmt; waitFor_loop rest fn onError
       end.

(** The number of pauses of [sleepAmt] milliseconds until [timeout] seconds
    are used up. *)
Definition sleeps_within (timeout : Z) : nat :=
  Z.to_nat ((timeout * 1000 + sleepAmt - 1) / sleepAmt).

Definition waitFor (timeout : Z) (fn : prog bool) (onError : string) : prog unit :=
  waitFor_loop (sleeps_within timeout) fn onError.

(** [create_checkdatasig_tx(count)] *)
Definition create_checkdatasig_tx (count : Z) : prog rawtx :=
  utxos ← rpc ListUnspent ≫= as_utxos;
  tx ← lift (create_checkdatasig_tx_unsigned utxos count);
  hex ← lift (ToHex tx);
  rpc (SignRawTransaction hex) ≫= as_hex.

(** [accepted(tip)] *)
Definition accepted (tip : CBlock) : TestInstance := mkInstance [(tip, ExpectTrue)].

(** [rejected(tip, reject)] *)
Definition rejected (tip : CBlock) (reject : option RejectResult) : TestInstance :=
  match reject with
  | None => mkInstance [(tip, ExpectFalse)]
  | Some r => mkInstance [(tip, ExpectReject r)]
  end.

(** [next_block(block_time)] *)
Definition next_block (block_time : Z) : prog CBlock :=
  height ← rpc GetBlockchainInfo ≫= as_blocks;
  coinbase ← lift (rehash (create_coinbase height));
  best ← rpc GetBestBlockHash ≫= as_hash;
  block ← lift (create_block best coinbase block_time);
  lift (solve pow_fuel block).

(** [txid in set(node.getrawmempool())] *)
Definition in_mempool (txid : Z) : prog bool :=
  pool ← rpc GetRawMempool ≫= as_hashes;
  Ret (bool_decide (txid ∈ pool)).

(** [node.getblockheader(node.getbestblockhash())['mediantime']] *)
Definition best_mediantime : prog Z :=
  best ← rpc GetBestBlockHash ≫= as_hash;
  rpc (GetBlockHeader best) ≫= as_mediantime.

(** [block.sha256] of a solved block *)
Definition sha256_of (b : CBlock) : prog Z :=
  match block_sha256 b with Some h => Ret h | None => Fail TypeError end.

(** The loop [for i in range(6)] from its [i]-th round on. *)
Fixpoint climb (rounds : nat) (i : Z) : prog unit :=
  match rounds with
  | O => Ret tt
  | S rest =>
      b ← next_block (NOV152018_START_TIME + i - 1);
      _ ← yield (accepted b);
      climb rest (i + 1)
  end.

(** Lines 175 to 184 of [get_tests]: the reorg that deactivates the opcode. *)
Definition reorg_deactivate (tx0id : Z) (nov152018forkblock fork_block : CBlock)
  : prog unit :=
  (* Invalidate the checkdatasig block, ensure tx0 gets back to the mempool. *)
  present ← in_mempool tx0id;
  _ ← assert_ (negb present);
  h ← sha256_of nov152018forkblock;
  _ ← rpc (InvalidateBlock h);
  _ ← waitFor 3 (in_mempool tx0id) "Transaction shoud be included in the mempool";
  h ← sha256_of fork_block;
  _ ← rpc (InvalidateBlock h);
  waitFor 3 (present ← in_mempool tx0id; Ret (negb present))
    "Transaction should not be included in the memopool".

(** [get_tests] *)
Definition get_tests : prog unit :=
  (* First, we generate some coins to spend. *)
  _ ← rpc (Generate 125);
  (* Create various outputs using the OP_CHECKDATASIG to check for activation. *)
  tx_hex ← create_checkdatasig_tx 25;
  txid ← rpc (SendRawTransaction tx_hex) ≫= as_hash;
  present ← in_mempool txid;
  _ ← assert_ present;
  _ ← rpc (Generate 1);
  present ← in_mempool txid;
  _ ← assert_ (negb present);
  (* register the spendable outputs. *)
  spendable_checkdatasigs ← lift (register_spendable tx_hex);
  (* Check that transactions using checkdatasig are not accepted yet. *)
  rand ← rpc (GetRandBits 800) ≫= as_int;
  '(tx0, _) ← lift (spend_checkdatasig rand spendable_checkdatasigs);
  tx0_hex ← lift (ToHex tx0);
  _ ← assert_raises_rpc_error (-26) RPC_BAD_OPCODE_ERROR (SendRawTransaction tx0_hex);
  (* Push MTP forward just before activation. *)
  _ ← rpc (SetMockTime NOV152018_START_TIME);
  _ ← climb 6 0;
  (* Check again just before the activation time *)
  mtp ← best_mediantime;
  _ ← assert_equal mtp (NOV152018_START_TIME - 1);
  _ ← assert_raises_rpc_error (-26) RPC_BAD_OPCODE_ERROR (SendRawTransaction tx0_hex);
  b ← next_block (NOV152018_START_TIME + 6);
  b ← lift (add_tx pow_fuel b tx0);
  _ ← yield (rejected b (Some (mkReject 16 "bad-blk-signatures")));
  (* Activates checkdatasig *)
  fork_block ← next_block (NOV152018_START_TIME + 6);
  _ ← yield (accepted fork_block);
  mtp ← best_mediantime;
  _ ← assert_equal mtp NOV152018_START_TIME;
  tx0id ← rpc (SendRawTransaction tx0_hex) ≫= as_hash;
  present ← in_mempool tx0id;
  _ ← assert_ present;
  (* Transactions can also be included in blocks. *)
  nov152018forkblock ← next_block (NOV152018_START_TIME + 7);
  nov152018forkblock ← lift (add_tx pow_fuel nov152018forkblock tx0);
  _ ← yield (accepted nov152018forkblock);
  (* Cause a reorg that deactivate the checkdatasig opcodes *)
  reorg_deactivate tx0id nov152018forkblock fork_block.

End Driver.

(** ** Runs of a program *)

Definition trace := list (call * reply).

(** [exec p tr o]: answering the requests of [p] as recorded in [tr] leads to
    [o]. *)
Inductive exec {A} : prog A → trace → result A → Prop :=
| exec_ret a : exec (Ret a) [] (Ok a)
| exec_fail e : exec (Fail e) [] (Raise e)
| exec_call c k r tr o : exec (k r) tr o → exec (Call c k) ((c, r) :: tr) o.

(** Running [p] against an environment given by its handler. *)
Fixpoint interp {S A} (handle : call → S → reply * S) (p : prog A) (s : S)
  : result A * S * trace :=
  match p with
  | Ret a => (Ok a, s, [])
  | Fail e => (Raise e, s, [])
  | Call c k =>
      let '(r, s') := handle c s in
      let '(o, s'', tr) := interp handle (k r) s' in
      (o, s'', (c, r) :: tr)
  end.

(** Projections of a trace. *)
Definition yields (tr : trace) : list TestInstance :=
  omap (λ e, match e.1 with Yield inst => Some inst | _ => None end) tr.
Definition mocktimes (tr : trace) : list Z :=
  omap (λ e, match e.1 with SetMockTime t => Some t | _ => None end) tr.
Definition mediantimes (tr : trace) : list Z :=
  omap (λ e, match e with (GetBlockHeader _, RHeader m) => Some m | _ => None end) tr.
Definition submissions (tr : trace) : list (rawtx * reply) :=
  omap (λ e, match e with (SendRawTransaction hex, r) => Some (hex, r) | _ => None end) tr.
Definition invalidations (tr : trace) : list Z :=
  omap (λ e, match e.1 with InvalidateBlock h => Some h | _ => None end) tr.
Definition slept (tr : trace) : Z :=
  foldr (λ e acc, match e.1 with Sleep ms => ms + acc | _ => acc end) 0 tr.

(** ** The node under test *)

(** A block as it arrives at the node. *)
Record rawblock := mkRawBlock {
  rb_prev : Z;
  rb_merkle : Z;
  rb_time : Z;
  rb_nonce : Z;
  rb_txs : list rawtx
}.

(** Modelled from the spec: the size of the median-time-past window ("the
    median timestamp of the most recent N ancestor blocks, N fixed"), which
    the node's consensus code fixes at eleven. *)
Definition nMedianTimeSpan : nat := 11.

(** Modelled from the spec: median-time-past of a chain given by its
    timestamps, tip first ("median timestamp of the most recent fixed-size
    window of ancestor blocks"). *)
Definition median_time_past (times : list Z) : Z :=
  let window := merge_sort Z.le (take nMedianTimeSpan times) in
  nth (length window / 2)%nat window 0.

Inductive tx_verdict := TxOk | TxMissingInputs | TxBadOpcode.

Inductive block_verdict :=
| Accepted
| NotConnected
| Rejected (code : Z) (reason : string).

Record NodeState := mkNode {
  chain : list rawblock;                 (* the active chain, tip first *)
  mempool : list rawtx;                  (* the pending pool as reported *)
  settling : option (nat * list rawtx);  (* pool contents taking effect after
                                            that many further pauses *)
  lag : nat;                             (* pauses a rollback needs to settle *)
  mocktime : option Z;
  clock : Z;
  entropy : Z
}.

Section Node.
Context `{Hashing} `{Framework}.

Fixpoint ser_txs (txs : list CTransaction) : result (list rawtx) :=
  match txs with
  | [] => Ok []
  | tx :: rest => hex ← ToHex tx; r ← ser_txs rest; Ok (hex :: r)
  end.

(** [block.serialize()] *)
Definition ser_block (b : CBlock) : result rawblock :=
  _ ← pack_I (nTime b);
  _ ← pack_I (nNonce b);
  txs ← ser_txs (vtx b);
  Ok (mkRawBlock (hashPrevBlock b) (hashMerkleRoot b) (nTime b) (nNonce b) txs).

Definition block_id (b : rawblock) : Z :=
  hash_header (rb_prev b) (rb_merkle b) (rb_time b) (rb_nonce b).

Definition mtp (c : list rawblock) : Z := median_time_past (map rb_time c).

Definition chain_txs (c : list rawblock) : list rawtx := concat (map rb_txs c).

Definition find_output (c : list rawblock) (o : COutPoint) : option (Z * CScript) :=
  tx ← find (λ tx, bool_decide (hash_tx tx = hash o)) (chain_txs c);
  if decide (0 ≤ n o) then raw_vout tx !! Z.to_nat (n o) else None.

Definition spent_in (txs : list rawtx) (o : COutPoint) : bool :=
  existsb (λ tx, existsb (λ i, bool_decide (prevout i = o)) (raw_vin tx)) txs.

Definition uses_checkdatasig (script : CScript) : bool :=
  bool_decide (Opcode OP_CHECKDATASIG ∈ script).

(** Modelled from the spec: the activation rule ("a block is pre-activation
    while median-time-past is strictly less than the threshold, and
    post-activation once median-time-past is greater-than-or-equal to the
    threshold"), applied to the chain [c] a transaction is validated on top
    of; [others] are the transactions that may already have spent its
    inputs. *)
Fixpoint check_inputs (c : list rawblock) (others : list rawtx) (ins : list CTxIn)
  : tx_verdict :=
  match ins with
  | [] => TxOk
  | i :: rest =>
      match find_output c (prevout i) with
      | None => TxMissingInputs
      | Some (_, script) =>
          if spent_in (chain_txs c ++ others) (prevout i) then TxMissingInputs
          else if uses_checkdatasig script && bool_decide (mtp c < NOV152018_START_TIME)
               then TxBadOpcode
               else check_inputs c others rest
      end
  end.

Definition check_tx (c : list rawblock) (others : list rawtx) (tx : rawtx) : tx_verdict :=
  check_inputs c others (raw_vin tx).

(** The transactions after the coinbase, each on top of the ones before. *)
Fixpoint check_block_txs (c : list rawblock) (before txs : list rawtx) : block_verdict :=
  match txs with
  | [] => Accepted
  | tx :: rest =>
      match check_tx c before tx with
      | TxOk => check_block_txs c (before ++ [tx]) rest
      | TxMissingInputs => Rejected 16 "bad-txns-inputs-missingorspent"
      | TxBadOpcode => Rejected 16 "bad-blk-signatures"
      end
  end.

(** Modelled from the spec: [submitBlock] of the node interface.  A block
    must build on the tip, carry a valid proof of work and the Merkle root of
    its transactions; a transaction using the opcode before activation makes
    it fail with the block-level identifier. *)
Definition validate_block (c : list rawblock) (b : rawblock) : block_verdict :=
  match c with
  | [] => NotConnected
  | tip :: _ =>
      if negb (bool_decide (rb_prev b = block_id tip)) then NotConnected
      else if bool_decide (block_id b > regtest_target) then Rejected 16 "high-hash"
      else if negb (bool_decide (calc_merkle (map hash_tx (rb_txs b)) = rb_merkle b))
           then Rejected 16 "bad-txnmrklroot"
      else check_block_txs c [] (tail (rb_txs b))
  end.

Definition conflicts (b : rawblock) (tx : rawtx) : bool :=
  bool_decide (tx ∈ rb_txs b)
  || existsb (λ i, spent_in (rb_txs b) (prevout i)) (raw_vin tx).

Definition connect_block (s : NodeState) (b : rawblock) : NodeState :=
  mkNode (b :: chain s) (filter (λ tx, ¬ conflicts b tx) (mempool s)) None
    (lag s) (mocktime s) (clock s) (entropy s).

Definition submit_block (s : NodeState) (b : rawblock) : block_verdict * NodeState :=
  match validate_block (chain s) b with
  | Accepted => (Accepted, connect_block s b)
  | v => (v, s)
  end.

(** Modelled from the spec: the comparison the test manager makes for one
    pair of a test instance ("any mismatch between expected and actual
    accept/reject outcome, any mismatch in reject code/message ... is a hard
    test failure"). *)
Definition meets (e : expectation) (v : block_verdict) : bool :=
  match e, v with
  | ExpectTrue, Accepted => true
  | ExpectFalse, (NotConnected | Rejected _ _) => true
  | ExpectReject r, Rejected code reason =>
      bool_decide (reject_code r = code) && bool_decide (reject_reason r = reason)
  | _, _ => false
  end.

Fixpoint run_instance (pairs : list (CBlock * expectation)) (s : NodeState)
  : bool * NodeState :=
  match pairs with
  | [] => (true, s)
  | (b, e) :: rest =>
      match ser_block b with
      | Raise _ => (false, s)
      | Ok rb =>
          let '(v, s') := submit_block s rb in
          if meets e v then run_instance rest s' else (false, s')
      end
  end.

Definition adjusted_time (s : NodeState) : Z :=
  match mocktime s with Some t => t | None => clock s end.

(** Modelled from the spec: [generateBlocks] of the node interface; the node
    builds on its tip, takes the pending pool along and stamps the block with
    its clock, never at or below the median-time-past. *)
Definition mine (s : NodeState) : result NodeState :=
  match chain s with
  | [] => Raise ValueError
  | tip :: _ =>
      let height := Z.of_nat (length (chain s)) in
      coinbase ← ToHex (create_coinbase height);
      let txs := coinbase :: mempool s in
      let root := calc_merkle (map hash_tx txs) in
      let block_time := Z.max (mtp (chain s) + 1) (adjusted_time s) in
      b ← solve pow_fuel (mkBlock (block_id tip) root block_time 0 [] None);
      Ok (connect_block s (mkRawBlock (block_id tip) root block_time (nNonce b) txs))
  end.

Fixpoint generate (count : nat) (s : NodeState) : result NodeState :=
  match count with
  | O => Ok s
  | S rest => s' ← mine s; generate rest s'
  end.

(** Modelled from the spec: [listSpendableOutputs] of the node interface; the
    wallet owns the subsidies of blocks buried under a hundred others, oldest
    first, as long as nothing spends them. *)
Definition COINBASE_MATURITY : nat := 100.

Definition list_unspent (s : NodeState) : list utxo :=
  omap (λ b : rawblock,
          cb ← head (rb_txs b);
          out ← head (raw_vout cb);
          let o := mkOutPoint (hash_tx cb) 0 in
          if spent_in (chain_txs (chain s) ++ mempool s) o then None
          else Some (mkUtxo (hash_tx cb) 0 (Qc_of_Z out.1 / Qc_of_Z COIN)%Qc))
       (reverse (drop COINBASE_MATURITY (chain s))).

(** Modelled from the spec: [signTransaction] of the node interface, an opaque
    service; the signed transaction differs from the unsigned one in its
    signature scripts only. *)
Definition sign_raw (hex : rawtx) : rawtx :=
  mkRaw (map (λ i, mkTxIn (prevout i) [Push []]) (raw_vin hex)) (raw_vout hex).

(** Modelled from the spec: [submitPoolTransaction] of the node interface,
    with the pool-level rejection pair for the opcode before activation. *)
Definition send_raw (s : NodeState) (hex : rawtx) : reply * NodeState :=
  if bool_decide (hex ∈ mempool s) then (RError (-26) "18: txn-already-in-mempool", s)
  else if bool_decide (hex ∈ chain_txs (chain s))
       then (RError (-27) "transaction already in block chain", s)
  else match check_tx (chain s) (mempool s) hex with
       | TxMissingInputs => (RError (-25) "Missing inputs", s)
       | TxBadOpcode => (RError (-26) RPC_BAD_OPCODE_ERROR, s)
       | TxOk =>
           (RHash (hash_tx hex),
            mkNode (chain s) (mempool s ++ [hex]) (settling s) (lag s) (mocktime s)
              (clock s) (entropy s))
       end.

(** The pool as it will be once a pending rollback has settled. *)
Definition settled_pool (s : NodeState) : list rawtx :=
  match settling s with Some (_, pool) => pool | None => mempool s end.

(** Of [candidates], in order, those valid on top of [c]. *)
Definition readmit (c : list rawblock) (candidates : list rawtx) : list rawtx :=
  foldl (λ pool tx, match check_tx c pool tx with
                    | TxOk => pool ++ [tx]
                    | _ => pool
                    end) [] candidates.

(** The position in the active chain (the tip is at zero) of the block with
    identifier [h]. *)
Fixpoint position (h : Z) (c : list rawblock) : option nat :=
  match c with
  | [] => None
  | b :: rest => if decide (block_id b = h) then Some O else S <$> position h rest
  end.

(** Modelled from the spec: [invalidateBlock] of the node interface ("causing
    its transactions to return to the pending pool if still valid, or be
    discarded if no longer valid"); the pool follows at once or, with [lag],
    some pauses later. *)
Definition invalidate_block (s : NodeState) (h : Z) : reply * NodeState :=
  match position h (chain s) with
  | None => (RError (-5) "Block not found", s)
  | Some i =>
      let removed := reverse (take (S i) (chain s)) in
      let c := drop (S i) (chain s) in
      let back := concat (map (λ b, tail (rb_txs b)) removed) in
      let pool := readmit c (back ++ settled_pool s) in
      match lag s with
      | O => (RNone, mkNode c pool None (lag s) (mocktime s) (clock s) (entropy s))
      | S k => (RNone, mkNode c (mempool s) (Some (k, pool)) (lag s) (mocktime s)
                         (clock s) (entropy s))
      end
  end.

(** A pause lets a pending rollback come one step nearer. *)
Definition pause (s : NodeState) : NodeState :=
  match settling s with
  | None => s
  | Some (O, pool) =>
      mkNode (chain s) pool None (lag s) (mocktime s) (clock s) (entropy s)
  | Some (S k, pool) =>
      mkNode (chain s) (mempool s) (Some (k, pool)) (lag s) (mocktime s) (clock s)
        (entropy s)
  end.

(** Modelled from the spec: [queryBestBlockHeader] of the node interface; the
    median time of a block is taken over the block and its ancestors. *)
Fixpoint median_time_of (h : Z) (c : list rawblock) : option Z :=
  match c with
  | [] => None
  | b :: rest => if decide (block_id b = h) then Some (mtp c) else median_time_of h rest
  end.

(** The environment of the driver: the node, the test manager in front of it
    and the random source. *)
Definition handle (c : call) (s : NodeState) : reply * NodeState :=
  match c with
  | Generate count =>
      if decide (count < 0) then (RError (-8) "Invalid parameter", s)
      else match generate (Z.to_nat count) s with
           | Ok s' => (RNone, s')
           | Raise _ => (RError (-1) "Could not generate a block", s)
           end
  | ListUnspent => (RUtxos (list_unspent s), s)
  | SignRawTransaction hex => (RHex (sign_raw hex), s)
  | SendRawTransaction hex => send_raw s hex
  | GetRawMempool => (RHashes (map hash_tx (mempool s)), s)
  | SetMockTime t =>
      (RNone, mkNode (chain s) (mempool s) (settling s) (lag s) (Some t) (clock s)
                (entropy s))
  | GetBlockchainInfo => (RInfo (Z.of_nat (length (chain s)) - 1), s)
  | GetBestBlockHash =>
      match chain s with
      | tip :: _ => (RHash (block_id tip), s)
      | [] => (RError (-1) "No chain", s)
      end
  | GetBlockHeader h =>
      match median_time_of h (chain s) with
      | Some m => (RHeader m, s)
      | None => (RError (-5) "Block not found", s)
      end
  | InvalidateBlock h => invalidate_block s h
  | GetRandBits k =>
      (RInt (entropy s mod 2 ^ k),
       mkNode (chain s) (mempool s) (settling s) (lag s) (mocktime s) (clock s)
         (entropy s * 6364136223846793005 + 1442695040888963407))
  | Sleep _ => (RNone, pause s)
  | Yield inst =>
      let '(ok, s') := run_instance (blocks_and_transactions inst) s in
      (if ok then RResumed else RAborted, s')
  end.

(** The whole test against the node. *)
Definition run_test (s : NodeState) : result unit * NodeState * trace :=
  interp handle get_tests s.

End Node.

(** ** A concrete codec and node for examples

    A stand-in for the hash functions, cheap enough to evaluate: every field
    of the serialization is folded into a 256-bit accumulator. *)

Definition mask256 : Z := Z.ones 256.
Definition mix (acc x : Z) : Z := Z.land (acc * 1000003 + x + 1) mask256.

Definition item_code (i : script_item) : list Z :=
  match i with
  | Push d => 1 :: Z.of_nat (length d) :: map (λ b, Z.of_N (Byte.to_N b)) d
  | Opcode OP_CHECKDATASIG => [2; 186]
  | Opcode OP_RETURN => [2; 106]
  | Opcode OP_TRUE => [2; 81]
  | Num z => [3; z]
  end.

Definition script_code (s : CScript) : list Z :=
  Z.of_nat (length s) :: concat (map item_code s).

Definition raw_code (r : rawtx) : list Z :=
  Z.of_nat (length (raw_vin r))
  :: concat (map (λ i, hash (prevout i) :: n (prevout i) :: script_code (scriptSig i))
               (raw_vin r))
  ++ Z.of_nat (length (raw_vout r))
  :: concat (map (λ o, o.1 :: script_code o.2) (raw_vout r)).

Definition example_hashing : Hashing := {|
  hash_tx r := foldl mix 7 (raw_code r);
  calc_merkle l := foldl mix 11 l;
  hash_header a b c d :=
    Z.land (foldl mix 13 [a; b; c; d]
            * 0x9E3779B97F4A7C15F39CC0605CEDC8341082276BF3A27251F86C6A11D0C18E95) mask256
|}.

(** Exact comparison of messages, one poll per second, sixty-four nonces. *)
Definition example_framework : Framework := {|
  message_matches := String.eqb;
  sleepAmt := 1000;
  pow_fuel := 64
|}.

Definition example_genesis : rawblock :=
  mkRawBlock 0 0 1296688602 2
    [mkRaw [mkTxIn (mkOutPoint 0 0xffffffff) [Num 0]] [(50 * COIN, [Opcode OP_TRUE])]].

(** A fresh node whose wall clock shows a day of November 2018 and whose pool
    needs [lag] pauses to follow a rollback. *)
Definition example_node (lag : nat) : NodeState :=
  mkNode [example_genesis] [] None lag None 1541300000 12345.

(** A wire transaction with three outputs, to try the builders on. *)
Definition example_three_outputs : rawtx :=
  mkRaw [mkTxIn (mkOutPoint 7 0) [Push []]]
    [(199999000, [Opcode OP_CHECKDATASIG]); (200000000, [Opcode OP_CHECKDATASIG]);
     (200000000, [Opcode OP_CHECKDATASIG])].

(** A candidate block holding its coinbase only, not yet solved. *)
Definition example_block : CBlock :=
  mkBlock 1 0 2000000006 0 [create_coinbase 132] None.

(** The test run against the example node, and what it looks like from
    outside: outcome, clock overrides, median times reported, the blocks handed
    over (time, number of transactions, expectation), the transactions
    submitted (output indices spent, error returned), the number of
    invalidations and the time slept. *)
Definition example_run (lag : nat) : result unit * NodeState * trace :=
  run_test (H := example_hashing) (H0 := example_framework) (example_node lag).

Definition example_trace : trace := (example_run 1).2.

Definition yield_summary (tr : trace) : list (list (Z * nat * expectation)) :=
  map (λ inst, map (λ p : CBlock * expectation, (nTime p.1, length (vtx p.1), p.2))
                 (blocks_and_transactions inst))
      (yields tr).

Definition error_of (r : reply) : option (Z * string) :=
  match r with RError code msg => Some (code, msg) | _ => None end.

Definition submission_summary (tr : trace) : list (list Z * option (Z * string)) :=
  map (λ s : rawtx * reply, (map (λ i, n (prevout i)) (raw_vin s.1), error_of s.2))
      (submissions tr).

Definition run_digest (run : result unit * NodeState * trace) :=
  (run.1.1, mocktimes run.2, mediantimes run.2, yield_summary run.2,
   submission_summary run.2, length (invalidations run.2), slept run.2).

(** ** Vocabulary of the statements *)

(** A wire transaction whose fields fit their formats. *)
Definition wire_ok (hex : rawtx) : Prop :=
  Forall (λ i, 0 ≤ n (prevout i) < 2 ^ 32) (raw_vin hex)
  ∧ Forall (λ o : Z * CScript, - 2 ^ 63 ≤ o.1 < 2 ^ 63) (raw_vout hex).

(** The outpoint an entry of the driver's list stands for. *)
Definition outpoint_key (o : PreviousSpendableOutput) : option Z * Z :=
  (sha256 (pso_tx o), pso_n o).

(** The outpoints a list of transactions refers to as inputs. *)
Definition inputs_of (txs : list CTransaction) : list COutPoint :=
  concat (map (λ tx, map prevout (vin tx)) txs).

(** A block that is ready to be submitted: its Merkle root is that of its
    transactions and its header is solved. *)
Definition block_ready `{Hashing} (b : CBlock) : Prop := merkle_valid b ∧ pow_valid b.

(** Every request of a run satisfies [I]. *)
Definition requests_all (I : call → Prop) (tr : trace) : Prop :=
  Forall (λ e : call * reply, I e.1) tr.

(** [hoare p I Q]: whatever the replies, every request [p] makes satisfies
    [I], and [Q] holds of what it returns. *)
Definition hoare {A} (p : prog A) (I : call → Prop) (Q : A → Prop) : Prop :=
  ∀ tr o, exec p tr o → requests_all I tr ∧ ∀ a, o = Ok a → Q a.

(** Only blocks that are ready are handed over. *)
Definition yields_ready `{Hashing} (c : call) : Prop :=
  match c with
  | Yield inst => Forall (λ p : CBlock * expectation, block_ready p.1)
                    (blocks_and_transactions inst)
  | _ => True
  end.

(** The two requests of a [next_block]. *)
Definition next_block_calls (height best : Z) : trace :=
  [(GetBlockchainInfo, RInfo height); (GetBestBlockHash, RHash best)].

(** [b] is the block [next_block t] builds when the node reports [height]
    and [best]. *)
Definition built_by_next_block `{Hashing} `{Framework} (height best t : Z) (b : CBlock)
  : Prop :=
  ∃ coinbase block,
    rehash (create_coinbase height) = Ok coinbase
    ∧ create_block best coinbase t = Ok block
    ∧ solve pow_fuel block = Ok b.

(** One round of the loop: height and tip as reported, and the block built. *)
Definition round_trace (r : Z * Z * CBlock) : trace :=
  next_block_calls r.1.1 r.1.2 ++ [(Yield (accepted r.2), RResumed)].

Definition climb_trace (rounds : list (Z * Z * CBlock)) : trace :=
  concat (map round_trace rounds).

(** A poll that missed (the pool reported, and the reply to the pause that
    followed), and a wait that ended with a hit after some misses. *)
Definition miss_trace `{Framework} (m : list Z * reply) : trace :=
  [(GetRawMempool, RHashes m.1); (Sleep sleepAmt, m.2)].

Definition misses_trace `{Framework} (misses : list (list Z * reply)) : trace :=
  concat (map miss_trace misses).

Definition waiting_trace `{Framework} (misses : list (list Z * reply)) (hit : list Z)
  : trace :=
  misses_trace misses ++ [(GetRawMempool, RHashes hit)].

(** What happens in a passing run of [reorg_deactivate]. *)
Record reorg_data := mkReorg {
  rg_pool : list Z;                      (* the pool before the rollback *)
  rg_nov : Z;  rg_inv1 : reply;          (* first invalidation *)
  rg_misses1 : list (list Z * reply);  rg_hit1 : list Z;
  rg_fork : Z;  rg_inv2 : reply;         (* second invalidation *)
  rg_misses2 : list (list Z * reply);  rg_hit2 : list Z
}.

Definition reorg_trace `{Framework} (d : reorg_data) : trace :=
  [(GetRawMempool, RHashes (rg_pool d)); (InvalidateBlock (rg_nov d), rg_inv1 d)]
  ++ waiting_trace (rg_misses1 d) (rg_hit1 d)
  ++ [(InvalidateBlock (rg_fork d), rg_inv2 d)]
  ++ waiting_trace (rg_misses2 d) (rg_hit2 d).

Definition reorg_facts `{Framework} (txid : Z) (nov fork : CBlock) (d : reorg_data)
  : Prop :=
  (txid ∉ rg_pool d)
  ∧ block_sha256 nov = Some (rg_nov d)
  ∧ block_sha256 fork = Some (rg_fork d)
  ∧ (length (rg_misses1 d) ≤ sleeps_within 3)%nat
  ∧ Forall (λ m : list Z * reply, txid ∉ m.1) (rg_misses1 d)
  ∧ txid ∈ rg_hit1 d
  ∧ (length (rg_misses2 d) ≤ sleeps_within 3)%nat
  ∧ Forall (λ m : list Z * reply, txid ∈ m.1) (rg_misses2 d)
  ∧ (txid ∉ rg_hit2 d).

(** What happens in a passing run of [get_tests]: the replies of the node and
    the values the driver computes from them. *)
Record run_data := mkRun {
  rd_gen1 : reply;
  rd_utxos : list utxo;
  rd_unsigned : CTransaction;
  rd_hex : rawtx;
  rd_tx_hex : rawtx;
  rd_txid : Z;
  rd_pool1 : list Z;
  rd_gen2 : reply;
  rd_pool2 : list Z;
  rd_spendable : list PreviousSpendableOutput;
  rd_rand : Z;
  rd_tx0 : CTransaction;
  rd_rest : list PreviousSpendableOutput;
  rd_tx0_hex : rawtx;
  rd_msg1 : string;
  rd_mock : reply;
  rd_rounds : list (Z * Z * CBlock);
  rd_best1 : Z;
  rd_msg2 : string;
  rd_at7 : Z * Z;  rd_b7 : CBlock;  rd_rejected : CBlock;
  rd_at8 : Z * Z;  rd_fork_block : CBlock;
  rd_best2 : Z;
  rd_tx0id : Z;
  rd_pool3 : list Z;
  rd_at9 : Z * Z;  rd_b9 : CBlock;  rd_nov : CBlock;
  rd_reorg : reorg_data
}.

Definition passing_trace `{Framework} (d : run_data) : trace :=
  [(Generate 125, rd_gen1 d);
   (ListUnspent, RUtxos (rd_utxos d));
   (SignRawTransaction (rd_hex d), RHex (rd_tx_hex d));
   (SendRawTransaction (rd_tx_hex d), RHash (rd_txid d));
   (GetRawMempool, RHashes (rd_pool1 d));
   (Generate 1, rd_gen2 d);
   (GetRawMempool, RHashes (rd_pool2 d));
   (GetRandBits 800, RInt (rd_rand d));
   (SendRawTransaction (rd_tx0_hex d), RError (-26) (rd_msg1 d));
   (SetMockTime NOV152018_START_TIME, rd_mock d)]
  ++ climb_trace (rd_rounds d)
  ++ [(GetBestBlockHash, RHash (rd_best1 d));
      (GetBlockHeader (rd_best1 d), RHeader (NOV152018_START_TIME - 1));
      (SendRawTransaction (rd_tx0_hex d), RError (-26) (rd_msg2 d))]
  ++ next_block_calls (rd_at7 d).1 (rd_at7 d).2
  ++ [(Yield (rejected (rd_rejected d) (Some (mkReject 16 "bad-blk-signatures"))),
       RResumed)]
  ++ next_block_calls (rd_at8 d).1 (rd_at8 d).2
  ++ [(Yield (accepted (rd_fork_block d)), RResumed);
      (GetBestBlockHash, RHash (rd_best2 d));
      (GetBlockHeader (rd_best2 d), RHeader NOV152018_START_TIME);
      (SendRawTransaction (rd_tx0_hex d), RHash (rd_tx0id d));
      (GetRawMempool, RHashes (rd_pool3 d))]
  ++ next_block_calls (rd_at9 d).1 (rd_at9 d).2
  ++ [(Yield (accepted (rd_nov d)), RResumed)]
  ++ reorg_trace (rd_reorg d).

Definition passing_facts `{Hashing} `{Framework} (d : run_data) : Prop :=
  create_checkdatasig_tx_unsigned (rd_utxos d) 25 = Ok (rd_unsigned d)
  ∧ ToHex (rd_unsigned d) = Ok (rd_hex d)
  ∧ rd_txid d ∈ rd_pool1 d
  ∧ (rd_txid d ∉ rd_pool2 d)
  ∧ register_spendable (rd_tx_hex d) = Ok (rd_spendable d)
  ∧ spend_checkdatasig (rd_rand d) (rd_spendable d) = Ok (rd_tx0 d, rd_rest d)
  ∧ ToHex (rd_tx0 d) = Ok (rd_tx0_hex d)
  ∧ message_matches RPC_BAD_OPCODE_ERROR (rd_msg1 d) = true
  ∧ length (rd_rounds d) = 6%nat
  ∧ (∀ (j : nat) r, rd_rounds d !! j = Some r →
       built_by_next_block r.1.1 r.1.2 (NOV152018_START_TIME + Z.of_nat j - 1) r.2)
  ∧ message_matches RPC_BAD_OPCODE_ERROR (rd_msg2 d) = true
  ∧ built_by_next_block (rd_at7 d).1 (rd_at7 d).2 (NOV152018_START_TIME + 6) (rd_b7 d)
  ∧ add_tx pow_fuel (rd_b7 d) (rd_tx0 d) = Ok (rd_rejected d)
  ∧ built_by_next_block (rd_at8 d).1 (rd_at8 d).2 (NOV152018_START_TIME + 6)
      (rd_fork_block d)
  ∧ rd_tx0id d ∈ rd_pool3 d
  ∧ built_by_next_block (rd_at9 d).1 (rd_at9 d).2 (NOV152018_START_TIME + 7) (rd_b9 d)
  ∧ add_tx pow_fuel (rd_b9 d) (rd_tx0 d) = Ok (rd_nov d)
  ∧ reorg_facts (rd_tx0id d) (rd_nov d) (rd_fork_block d) (rd_reorg d).


(** [fn] is a poll of the pending pool that answers [want pool]. *)
Definition polls_pool (fn : prog bool) (want : list Z → bool) : Prop :=
  (∀ tr b, exec fn tr (Ok b) → ∃ pool, tr = [(GetRawMempool, RHashes pool)] ∧ b = want pool)
  ∧ (∀ tr e, exec fn tr (Raise e) → ∀ m, e ≠ TimeoutException m).

(** [PreviousSpendableOutput()]: the defaults of the constructor, a fresh
    [CTransaction()] and [n = -1]. *)
Definition PreviousSpendableOutput_default : PreviousSpendableOutput :=
  mkPSO (mkTx [] [] None) (-1).


(** The arguments [get_tests] passes with its requests are constants of the
    source, and a test instance holds one block, expected to be accepted or
    to be rejected with code 16 and reason [bad-blk-signatures]. *)
Definition request_constants `{Framework} (c : call) : Prop :=
  match c with
  | Generate count => count = 125 ∨ count = 1
  | SetMockTime t => t = NOV152018_START_TIME
  | GetRandBits k => k = 800
  | Sleep ms => ms = sleepAmt
  | Yield inst =>
      ∃ b e, blocks_and_transactions inst = [(b, e)]
             ∧ (e = ExpectTrue ∨ e = ExpectReject (mkReject 16 "bad-blk-signatures"))
  | _ => True
  end.

(** A wallet that lists one output of fifty coins and returns what it is
    asked to sign as it is. *)
Definition example_wallet (c : call) (s : unit) : reply * unit :=
  (match c with
   | ListUnspent => RUtxos [mkUtxo 7 0 (Qc_of_Z 50)]
   | SignRawTransaction hex => RHex hex
   | _ => RNone
   end, s).

(** * Properties *)

(** ** Numbers *)

Lemma Qc_div_hundred_this v : (this (Qc_of_Z v / Qc_of_Z 100)%Qc == v # 100)%Q.
Proof.
  unfold Qcdiv, Qcmult, Qcinv. simpl this.
  rewrite !Qred_correct. unfold Qeq, Qmult, Qinv; simpl. lia.
Qed.

Lemma hundredth_lt v : (Qc_of_Z 1000 < Qc_of_Z v / Qc_of_Z 100)%Qc ↔ 100000 < v.
Proof.
  unfold Qclt. rewrite Qc_div_hundred_this. unfold Qlt; simpl. lia.
Qed.

Lemma fee_of_int v :
  fee_of (PyInt v) =
  Ok (if decide (100000 < v) then PyInt 1000 else PyFloat (Qc_of_Z v / Qc_of_Z 100)%Qc).
Proof.
  unfold fee_of, py_truediv. simpl num_val.
  destruct (decide (Qc_of_Z 100 = 0%Qc)) as [E|_]; [discriminate E|].
  simpl. unfold py_min, py_lt. simpl num_val.
  destruct (decide (100000 < v)) as [Hv|Hv].
  - rewrite bool_decide_eq_true_2; [done|]. by apply hundredth_lt.
  - rewrite bool_decide_eq_false_2; [done|]. by rewrite hundredth_lt.
Qed.

Lemma hundredth_integral v z :
  (Qc_of_Z v / Qc_of_Z 100)%Qc = Qc_of_Z z ↔ v = 100 * z.
Proof.
  split.
  - intros E. apply (f_equal this) in E.
    assert (E' : (v # 100 == inject_Z z)%Q).
    { rewrite <- Qc_div_hundred_this, E. reflexivity. }
    unfold Qeq, inject_Z in E'; simpl in E'. lia.
  - intros ->. apply Qc_is_canon. rewrite Qc_div_hundred_this.
    unfold Qeq, inject_Z; simpl. lia.
Qed.







Lemma map_fmap {A B} (f : A → B) (l : list A) : map f l = f <$> l.
Proof. reflexivity. Qed.

Lemma bind_Ok {A B} (a : A) (f : A → result B) : (Ok a ≫= f) = f a.
Proof. reflexivity. Qed.
Lemma bind_Raise {A B} e (f : A → result B) : (Raise e ≫= f) = Raise e.
Proof. reflexivity. Qed.

Lemma py_index_0 {A} (x : A) l : py_index (x :: l) 0 = Ok x.
Proof.
  unfold py_index. destruct (decide (0 < 0)); [lia|].
  destruct (decide _) as [|Hn]; [done|]. simpl length in Hn. lia.
Qed.

Lemma py_index_nonneg {A} (l : list A) (i : nat) x :
  l !! i = Some x → py_index l (Z.of_nat i) = Ok x.
Proof.
  intros Hx. unfold py_index. destruct (decide (Z.of_nat i < 0)); [lia|].
  apply lookup_lt_Some in Hx as Hlt.
  destruct (decide _) as [|Hn]; [|lia]. by rewrite Nat2Z.id, Hx.
Qed.


Lemma integral_hundredth v :
  integral (PyFloat (Qc_of_Z v / Qc_of_Z 100)%Qc) ↔ (100 | v).
Proof.
  unfold integral; simpl. split.
  - intros [z Hz]. apply hundredth_integral in Hz. exists z. lia.
  - intros [z Hz]. exists z. apply hundredth_integral. lia.
Qed.


(** The fee on an integer amount: the int [1000] above 100000, else the
    float [v/100]. *)
Lemma fee_of_above v : 100000 < v → fee_of (PyInt v) = Ok (PyInt 1000).
Proof. intros Hv. rewrite fee_of_int. by destruct (decide _). Qed.


(** ** The codec *)

Lemma ser_vin_ok ins :
  Forall (λ i, 0 ≤ n (prevout i) < 2 ^ 32) ins → ser_vin ins = Ok ins.
Proof.
  induction 1 as [|i ins Hi _ IH]; [done|]. simpl.
  unfold pack_I. destruct (decide _); [|done]. by rewrite bind_Ok, IH.
Qed.

Lemma ser_vout_ok outs :
  Forall (λ o : Z * CScript, - 2 ^ 63 ≤ o.1 < 2 ^ 63) outs →
  ser_vout (map (λ p, mkTxOut (PyInt p.1) p.2) outs) = Ok outs.
Proof.
  induction 1 as [|[v sc] outs Ho _ IH]; [done|]. simpl in *.
  destruct (decide _); [|done]. by rewrite bind_Ok, IH.
Qed.

(** Round trip: a wire transaction read and written again is itself. *)
Lemma ToHex_FromHex hex : wire_ok hex → ToHex (FromHex hex) = Ok hex.
Proof.
  intros [Hin Hout]. unfold ToHex, FromHex; simpl.
  rewrite ser_vin_ok, bind_Ok, ser_vout_ok by done. by destruct hex.
Qed.

Lemma ser_vin_inv ins r : ser_vin ins = Ok r → r = ins.
Proof.
  revert r. induction ins as [|i ins IH]; simpl; intros r Hr; [congruence|].
  destruct (pack_I _); [|done]. rewrite bind_Ok in Hr.
  destruct (ser_vin ins) as [r'|]; [|done]. rewrite (IH r' eq_refl) in Hr.
  simpl in Hr. congruence.
Qed.

Lemma ser_vout_inv outs r :
  ser_vout outs = Ok r → outs = map (λ p, mkTxOut (PyInt p.1) p.2) r.
Proof.
  revert r. induction outs as [|[v sc] outs IH]; simpl; intros r Hr.
  - by inversion Hr.
  - destruct v as [z|q]; simpl in Hr; [|done].
    destruct (decide _); [|done]. rewrite bind_Ok in Hr.
    destruct (ser_vout outs) as [r'|]; [|done]. simpl in Hr.
    inversion Hr; subst. simpl. by rewrite <- (IH r' eq_refl).
Qed.

(** What is serialized carries integer amounts only. *)
Lemma ToHex_inv tx hex :
  ToHex tx = Ok hex →
  vin tx = raw_vin hex ∧ vout tx = map (λ p, mkTxOut (PyInt p.1) p.2) (raw_vout hex).
Proof.
  unfold ToHex. intros Hx.
  destruct (ser_vin (vin tx)) as [i|] eqn:Ei; [|done]. rewrite bind_Ok in Hx.
  destruct (ser_vout (vout tx)) as [o|] eqn:Eo; [|done]. simpl in Hx.
  inversion Hx; subst; simpl. split.
  - symmetry. by apply ser_vin_inv.
  - by apply ser_vout_inv.
Qed.

Lemma py_pop_inv {A} (l : list A) x rest : py_pop l = Ok (x, rest) → l = rest ++ [x].
Proof.
  unfold py_pop. destruct (last l) as [y|] eqn:El; [|done].
  intros [= -> <-]. apply last_Some in El as [l' ->]. by rewrite removelast_last.
Qed.

Lemma py_pop_snoc {A} (l : list A) x : py_pop (l ++ [x]) = Ok (x, l).
Proof. unfold py_pop. by rewrite last_snoc, removelast_last. Qed.

Lemma py_pop_nil {A} : py_pop (@nil A) = Raise IndexError.
Proof. reflexivity. Qed.

Section BuilderFacts.
Context `{Hashing}.

Lemma rehash_inv tx tx' :
  rehash tx = Ok tx' →
  ∃ hex, ToHex tx = Ok hex ∧ tx' = mkTx (vin tx) (vout tx) (Some (hash_tx hex)).
Proof.
  unfold rehash. destruct (ToHex tx) as [hex|]; [|done].
  intros [= <-]. by exists hex.
Qed.

(** What a returning call of [spend_checkdatasig] did. *)
Lemma spend_checkdatasig_inv rand l tx rest :
  spend_checkdatasig rand l = Ok (tx, rest) →
  ∃ o out h fee hex,
    l = rest ++ [o]
    ∧ py_index (vout (pso_tx o)) (pso_n o) = Ok out
    ∧ sha256 (pso_tx o) = Some h
    ∧ fee_of (nValue out) = Ok fee
    ∧ ToHex (mkTx [CTxIn_of (mkOutPoint h (pso_n o))]
               [mkTxOut (py_sub (nValue out) fee) [];
                mkTxOut (PyInt 0) [Num rand; Opcode OP_RETURN]] None) = Ok hex
    ∧ tx = mkTx [CTxIn_of (mkOutPoint h (pso_n o))]
             [mkTxOut (py_sub (nValue out) fee) [];
              mkTxOut (PyInt 0) [Num rand; Opcode OP_RETURN]] (Some (hash_tx hex)).
Proof.
  unfold spend_checkdatasig. intros Hs.
  destruct (py_pop l) as [[o rest']|] eqn:Ep; [|done]. rewrite bind_Ok in Hs.
  destruct (py_index _ _) as [out|] eqn:Eo; [|done]. rewrite bind_Ok in Hs.
  unfold outpoint_of in Hs. destruct (sha256 (pso_tx o)) as [h|] eqn:Eh; [|done].
  rewrite bind_Ok, py_index_0, bind_Ok in Hs. simpl nValue in Hs.
  destruct (fee_of (nValue out)) as [fee|] eqn:Ef; [|done].
  rewrite bind_Ok in Hs. simpl deduct_first in Hs. rewrite bind_Ok in Hs.
  destruct (rehash _) as [tx'|] eqn:Er; [|done]. simpl in Hs.
  inversion Hs; subst. apply rehash_inv in Er as (hex & Ehex & ->).
  apply py_pop_inv in Ep. by exists o, out, h, fee, hex.
Qed.

(** When a call of [spend_checkdatasig] returns: the popped outpoint names an
    output of more than 100000 satoshis of a hashed transaction. *)
Lemma spend_checkdatasig_ok rand l o v script h :
  py_index (vout (pso_tx o)) (pso_n o) = Ok (mkTxOut (PyInt v) script) →
  sha256 (pso_tx o) = Some h →
  0 ≤ pso_n o < 2 ^ 32 → 100000 < v < 2 ^ 63 →
  let hex := mkRaw [CTxIn_of (mkOutPoint h (pso_n o))]
               [(v - 1000, []); (0, [Num rand; Opcode OP_RETURN])] in
  spend_checkdatasig rand (l ++ [o])
  = Ok (mkTx [CTxIn_of (mkOutPoint h (pso_n o))]
          [mkTxOut (PyInt (v - 1000)) [];
           mkTxOut (PyInt 0) [Num rand; Opcode OP_RETURN]] (Some (hash_tx hex)), l).
Proof.
  intros Ho Hh Hn Hv. cbv zeta. unfold spend_checkdatasig.
  rewrite py_pop_snoc, bind_Ok. cbv beta iota.
  rewrite Ho, bind_Ok. unfold outpoint_of. rewrite Hh, bind_Ok, py_index_0, bind_Ok.
  simpl nValue. rewrite fee_of_above, bind_Ok by lia. simpl deduct_first.
  rewrite bind_Ok. unfold rehash, ToHex. cbn [vin vout ser_vin ser_vout nValue n prevout
    CTxIn_of scriptPubKey py_sub pack_q].
  unfold pack_I. destruct (decide (0 ≤ pso_n o < 2 ^ 32)); [|lia].
  rewrite ?bind_Ok. destruct (decide (- 2 ^ 63 ≤ v - 1000 < 2 ^ 63)); [|lia].
  rewrite ?bind_Ok. destruct (decide (- 2 ^ 63 ≤ 0 < 2 ^ 63)); [|lia].
  by rewrite ?bind_Ok.
Qed.

(** The outputs registered from a wire transaction, in order. *)
Lemma register_spendable_ok hex :
  wire_ok hex →
  register_spendable hex
  = Ok (map (λ i, mkPSO (mkTx (raw_vin hex)
                           (map (λ p, mkTxOut (PyInt p.1) p.2) (raw_vout hex))
                           (Some (hash_tx hex))) (Z.of_nat i))
          (seq 0 (length (raw_vout hex)))).
Proof.
  intros Hw. unfold register_spendable, rehash.
  rewrite ToHex_FromHex by done. rewrite !bind_Ok. simpl.
  by rewrite length_map.
Qed.

End BuilderFacts.

(** ** The funding transaction *)







(** ** The fee *)

Section FeeFacts.
Context `{Hashing}.


End FeeFacts.



(** ** Spending at most once *)

Section SpendFacts.
Context `{Hashing}.

Lemma spend_many_popped rands : ∀ l txs rest,
  spend_many rands l = Ok (txs, rest) →
  ∃ popped,
    l = rest ++ reverse popped
    ∧ length popped = length rands
    ∧ length txs = length rands
    ∧ map (λ i, (Some (hash i), n i)) (inputs_of txs) = map outpoint_key popped.
Proof.
  induction rands as [|r rands IH]; intros l txs rest Hs; simpl in Hs.
  - inversion Hs; subst. exists []. by rewrite app_nil_r.
  - destruct (spend_checkdatasig r l) as [[tx l']|] eqn:E1; [|done].
    rewrite bind_Ok in Hs. cbv beta iota in Hs.
    destruct (spend_many rands l') as [[txs' final]|] eqn:E2; [|done].
    simpl in Hs. inversion Hs; subst.
    apply spend_checkdatasig_inv in E1 as (o & out & h & fee & hex & -> & _ & Hh & _ & _ & ->).
    destruct (IH _ _ _ E2) as (popped & -> & Hlen & Hlt & Hin).
    exists (o :: popped). split_and!.
    + by rewrite reverse_cons, !app_assoc.
    + simpl. by rewrite Hlen.
    + simpl. by rewrite Hlt.
    + unfold inputs_of in *. simpl. rewrite Hin. unfold outpoint_key at 2.
      by rewrite Hh.
Qed.

Lemma register_spendable_inv hex l :
  register_spendable hex = Ok l →
  ∃ tx, l = map (λ i, mkPSO tx (Z.of_nat i)) (seq 0 (length (vout tx)))
        ∧ vout tx = vout (FromHex hex) ∧ ∃ h, sha256 tx = Some h.
Proof.
  unfold register_spendable. destruct (rehash _) as [tx|] eqn:Er; [|done].
  intros [= <-]. exists tx. split; [done|].
  apply rehash_inv in Er as (x & _ & ->). simpl. eauto.
Qed.

(** C8: a call of [spend_checkdatasig] that returns has removed exactly one
    outpoint, the last, from the driver's list and built a transaction whose
    only input is that outpoint; on an empty list the call raises and builds
    nothing.  Hence, over any run of calls on a list of distinct outpoints,
    as the registered list is, no outpoint is the input of two of the
    transactions built, none that is still listed has been spent, and the
    list is shorter by one per call.  On a list registered from outputs of
    more than 100000 satoshis, as many calls return as it has entries. *)
Theorem spend_checkdatasig_at_most_once :
  (∀ rand l tx rest,
     spend_checkdatasig rand l = Ok (tx, rest) →
     ∃ o h, l = rest ++ [o] ∧ sha256 (pso_tx o) = Some h
            ∧ map prevout (vin tx) = [mkOutPoint h (pso_n o)])
  ∧ (∀ rand, spend_checkdatasig rand [] = Raise IndexError)
  ∧ (∀ rands l txs rest,
       spend_many rands l = Ok (txs, rest) →
       NoDup (map outpoint_key l) →
       NoDup (inputs_of txs)
       ∧ (length rest + length rands = length l)%nat
       ∧ length txs = length rands
       ∧ ∀ o, o ∈ rest → ∀ i, i ∈ inputs_of txs → outpoint_key o ≠ (Some (hash i), n i))
  ∧ (∀ hex l, register_spendable hex = Ok l → NoDup (map outpoint_key l))
  ∧ (∀ hex rands,
       wire_ok hex → Forall (λ o : Z * CScript, 100000 < o.1) (raw_vout hex) →
       Z.of_nat (length (raw_vout hex)) ≤ 2 ^ 32 →
       (length rands ≤ length (raw_vout hex))%nat →
       ∃ l txs rest, register_spendable hex = Ok l
                     ∧ spend_many rands l = Ok (txs, rest)).
Proof.
  split_and!.
  - intros rand l tx rest Hs.
    apply spend_checkdatasig_inv in Hs as (o & out & h & fee & hex & -> & _ & Hh & _ & _ & ->).
    by exists o, h.
  - done.
  - intros rands l txs rest Hs Hnd.
    apply spend_many_popped in Hs as (popped & -> & Hlen & Hlt & Hin).
    rewrite !map_fmap in *.
    rewrite fmap_app in Hnd. apply NoDup_app in Hnd as (Hrest & Hdisj & Hpop).
    rewrite fmap_reverse in Hpop, Hdisj. rewrite reverse_Permutation in Hpop.
    split_and!.
    + apply (NoDup_fmap_1 (λ i, (Some (hash i), n i))).
      by rewrite Hin.
    + rewrite length_app, length_reverse. lia.
    + done.
    + intros o Ho i Hi Heq.
      apply (Hdisj (outpoint_key o)).
      * by apply list_elem_of_fmap_2.
      * rewrite elem_of_reverse, <- Hin, Heq.
        by apply (list_elem_of_fmap_2 (λ i, (Some (hash i), n i))).
  - intros hex l Hr. apply register_spendable_inv in Hr as (tx & -> & _ & _).
    rewrite !map_fmap, <- list_fmap_compose.
    apply NoDup_fmap_2_strong; [|apply NoDup_seq].
    intros i j _ _ Hij. unfold outpoint_key in Hij; simpl in Hij.
    inversion Hij. lia.
  - intros hex rands Hw Hv Hmax Hlen.
    rewrite register_spendable_ok by done.
    set (tx := mkTx _ _ _).
    assert (Hgen : ∀ rs k, (k ≤ length (raw_vout hex))%nat → (length rs ≤ k)%nat →
              ∃ txs rest, spend_many rs (map (λ i, mkPSO tx (Z.of_nat i)) (seq 0 k))
                          = Ok (txs, rest)).
    { induction rs as [|r rs IH]; intros k Hk Hrs.
      - simpl. eauto.
      - destruct k as [|k]; [simpl in Hrs; lia|].
        rewrite seq_S, map_app. simpl map at 2. simpl spend_many.
        destruct (lookup_lt_is_Some_2 (raw_vout hex) k) as [[v sc] Hkv]; [lia|].
        assert (Hel : (v, sc) ∈ raw_vout hex) by (by eapply list_elem_of_lookup_2).
        assert (Hv' : 100000 < v).
        { rewrite List.Forall_forall in Hv. apply (Hv (v, sc)).
          by apply list_elem_of_In. }
        assert (Hv'' : - 2 ^ 63 ≤ v < 2 ^ 63).
        { destruct Hw as [_ Hw]. rewrite List.Forall_forall in Hw. apply (Hw (v, sc)).
          by apply list_elem_of_In. }
        erewrite spend_checkdatasig_ok; cycle 1.
        + simpl pso_tx. simpl pso_n. apply py_index_nonneg.
          unfold tx; simpl vout. rewrite map_fmap, list_lookup_fmap, Hkv. reflexivity.
        + reflexivity.
        + simpl. lia.
        + simpl. lia.
        + rewrite bind_Ok. cbv beta iota.
          destruct (IH k) as (txs & rest & ->); [lia|simpl in Hrs; lia|].
          rewrite bind_Ok. eauto. }
    eexists. destruct (Hgen rands (length (raw_vout hex))) as (txs & rest & Hs); [lia..|].
    eexists _, _. split; [reflexivity|]. exact Hs.
Qed.

End SpendFacts.

Lemma spend_checkdatasig_at_most_once_witness :
  ∃ l txs rest,
    register_spendable (H := example_hashing) example_three_outputs = Ok l
    ∧ spend_many (H := example_hashing) [5; 6] l = Ok (txs, rest)
    ∧ NoDup (inputs_of txs) ∧ (length rest + 2 = length l)%nat.
Proof.
  destruct (spend_checkdatasig_at_most_once (H := example_hashing))
    as (_ & _ & Hmany & Hreg & Hfull).
  destruct (Hfull example_three_outputs [5; 6]) as (l & txs & rest & Hl & Hs).
  - split; repeat constructor; simpl; lia.
  - repeat constructor; simpl; lia.
  - simpl. lia.
  - simpl. lia.
  - exists l, txs, rest. destruct (Hmany _ _ _ _ Hs (Hreg _ _ Hl)) as (Hnd & Hlen & _).
    by split_and!.
Defined.

(** ** Runs of programs *)

Lemma exec_bind_inv {A B} (m : prog A) (f : A → prog B) tr o :
  exec (m ≫= f) tr o →
  (∃ e, exec m tr (Raise e) ∧ o = Raise e)
  ∨ (∃ a tr1 tr2, tr = tr1 ++ tr2 ∧ exec m tr1 (Ok a) ∧ exec (f a) tr2 o).
Proof.
  revert tr. induction m as [a|e|c k IH]; intros tr Hx.
  - right. exists a, [], tr. split_and!; [done|constructor|exact Hx].
  - left. inversion Hx; subst. exists e. split; [constructor|done].
  - inversion Hx as [| |c' k' r tr' o' Hk]; subst.
    destruct (IH r tr' Hk) as [(e & He & ->)|(a & tr1 & tr2 & -> & H1 & H2)].
    + left. exists e. split; [by constructor|done].
    + right. exists a, ((c, r) :: tr1), tr2. split_and!; [done|by constructor|done].
Qed.

Lemma exec_bind_ok {A B} (m : prog A) (f : A → prog B) tr b :
  exec (m ≫= f) tr (Ok b) →
  ∃ a tr1 tr2, tr = tr1 ++ tr2 ∧ exec m tr1 (Ok a) ∧ exec (f a) tr2 (Ok b).
Proof.
  intros Hx. by destruct (exec_bind_inv _ _ _ _ Hx) as [(e & _ & ?)|?].
Qed.

Lemma exec_bind {A B} (m : prog A) (f : A → prog B) tr1 tr2 a o :
  exec m tr1 (Ok a) → exec (f a) tr2 o → exec (m ≫= f) (tr1 ++ tr2) o.
Proof.
  revert tr1. induction m as [a'|e|c k IH]; intros tr1 H1 H2.
  - inversion H1; subst. exact H2.
  - inversion H1.
  - inversion H1 as [| |c' k' r tr' o' Hk]; subst. simpl.
    apply (exec_call c (λ r, k r ≫= f)). by apply IH.
Qed.

Lemma exec_bind_raise {A B} (m : prog A) (f : A → prog B) tr e :
  exec m tr (Raise e) → exec (m ≫= f) tr (Raise e).
Proof.
  revert tr. induction m as [a'|e'|c k IH]; intros tr H1.
  - inversion H1.
  - inversion H1; subst. constructor.
  - inversion H1 as [| |c' k' r tr' o' Hk]; subst.
    apply (exec_call c (λ r, k r ≫= f)). by apply IH.
Qed.

(** A run against a handler is a run. *)
Lemma interp_exec {S A} (handle : call → S → reply * S) (p : prog A) s o s' tr :
  interp handle p s = (o, s', tr) → exec p tr o.
Proof.
  revert s tr. induction p as [a|e|c k IH]; intros s tr Hi; simpl in Hi.
  - inversion Hi; subst. constructor.
  - inversion Hi; subst. constructor.
  - destruct (handle c s) as [r s1]. destruct (interp handle (k r) s1) as [[o1 s2] tr1] eqn:E.
    inversion Hi; subst. constructor. by eapply IH.
Qed.

Lemma exec_lift_inv {A} (m : result A) tr o : exec (lift m) tr o → tr = [] ∧ o = m.
Proof. destruct m; inversion 1; by subst. Qed.

Lemma exec_rpc_ok c tr r :
  exec (rpc c) tr (Ok r) → tr = [(c, r)] ∧ ∀ code msg, r ≠ RError code msg.
Proof.
  unfold rpc. inversion 1 as [| |c' k' r' tr' o' Hk]; subst.
  destruct r'; inversion Hk; subst; done.
Qed.

Lemma exec_yield_ok inst tr u : exec (yield inst) tr (Ok u) → tr = [(Yield inst, RResumed)].
Proof.
  unfold yield. inversion 1 as [| |c' k' r' tr' o' Hk]; subst.
  destruct r'; inversion Hk; subst; done.
Qed.

Lemma exec_assert_ok b tr u : exec (assert_ b) tr (Ok u) → tr = [] ∧ b = true.
Proof.
  unfold assert_. intros Hx. apply exec_lift_inv in Hx as [-> Hb].
  by destruct b.
Qed.

Lemma exec_as_utxos r tr l : exec (as_utxos r) tr (Ok l) → tr = [] ∧ r = RUtxos l.
Proof. destruct r; inversion 1; by subst. Qed.
Lemma exec_as_hex r tr h : exec (as_hex r) tr (Ok h) → tr = [] ∧ r = RHex h.
Proof. destruct r; inversion 1; by subst. Qed.
Lemma exec_as_hash r tr h : exec (as_hash r) tr (Ok h) → tr = [] ∧ r = RHash h.
Proof. destruct r; inversion 1; by subst. Qed.
Lemma exec_as_hashes r tr l : exec (as_hashes r) tr (Ok l) → tr = [] ∧ r = RHashes l.
Proof. destruct r; inversion 1; by subst. Qed.
Lemma exec_as_blocks r tr b : exec (as_blocks r) tr (Ok b) → tr = [] ∧ r = RInfo b.
Proof. destruct r; inversion 1; by subst. Qed.
Lemma exec_as_mediantime r tr m : exec (as_mediantime r) tr (Ok m) → tr = [] ∧ r = RHeader m.
Proof. destruct r; inversion 1; by subst. Qed.
Lemma exec_as_int r tr z : exec (as_int r) tr (Ok z) → tr = [] ∧ r = RInt z.
Proof. destruct r; inversion 1; by subst. Qed.

(** An RPC whose reply is read through one of the [as_] projections. *)
Lemma exec_rpc_as {A} c (as_ : reply → prog A) (wrap : A → reply) tr a :
  (∀ r tr a, exec (as_ r) tr (Ok a) → tr = [] ∧ r = wrap a) →
  exec (rpc c ≫= as_) tr (Ok a) → tr = [(c, wrap a)].
Proof.
  intros Has Hx. apply exec_bind_ok in Hx as (r & tr1 & tr2 & -> & H1 & H2).
  apply exec_rpc_ok in H1 as [-> _]. apply Has in H2 as [-> ->]. done.
Qed.

(** ** Candidate blocks *)

Section BlockFacts.
Context `{Hashing}.

Lemma block_rehash_inv b b' :
  block_rehash b = Ok b' →
  b' = mkBlock (hashPrevBlock b) (hashMerkleRoot b) (nTime b) (nNonce b) (vtx b)
         (Some (hash_header (hashPrevBlock b) (hashMerkleRoot b) (nTime b) (nNonce b)))
  ∧ 0 ≤ nTime b < 2 ^ 32 ∧ 0 ≤ nNonce b < 2 ^ 32.
Proof.
  unfold block_rehash, pack_I.
  destruct (decide (0 ≤ nTime b < 2 ^ 32)); [|done]. rewrite bind_Ok.
  destruct (decide (0 ≤ nNonce b < 2 ^ 32)); [|done]. rewrite bind_Ok.
  by intros [= <-].
Qed.

Lemma block_rehash_ok b :
  0 ≤ nTime b < 2 ^ 32 → 0 ≤ nNonce b < 2 ^ 32 →
  block_rehash b
  = Ok (mkBlock (hashPrevBlock b) (hashMerkleRoot b) (nTime b) (nNonce b) (vtx b)
          (Some (hash_header (hashPrevBlock b) (hashMerkleRoot b) (nTime b) (nNonce b)))).
Proof.
  intros Ht Hn. unfold block_rehash, pack_I.
  destruct (decide (0 ≤ nTime b < 2 ^ 32)); [|lia]. rewrite bind_Ok.
  destruct (decide (0 ≤ nNonce b < 2 ^ 32)); [|lia]. by rewrite bind_Ok.
Qed.

(** What [solve] returns is solved; it changed the nonce only. *)
Lemma solve_loop_inv fuel : ∀ b b',
  solve_loop fuel b = Ok b' →
  pow_valid b'
  ∧ hashPrevBlock b' = hashPrevBlock b ∧ hashMerkleRoot b' = hashMerkleRoot b
  ∧ nTime b' = nTime b ∧ vtx b' = vtx b
  ∧ nNonce b ≤ nNonce b' ≤ nNonce b + Z.of_nat fuel.
Proof.
  induction fuel as [|fuel IH]; intros b b' Hs; simpl in Hs.
  - destruct (block_rehash b) as [b1|] eqn:Er; [|done]. rewrite bind_Ok in Hs.
    apply block_rehash_inv in Er as (-> & _ & _). simpl in Hs.
    case_bool_decide as Hh; [done|]. inversion Hs; subst. unfold pow_valid; simpl.
    split_and!; try done; lia.
  - destruct (block_rehash b) as [b1|] eqn:Er; [|done]. rewrite bind_Ok in Hs.
    apply block_rehash_inv in Er as (-> & _ & _). simpl in Hs.
    case_bool_decide as Hh.
    + apply IH in Hs as (Hp & ? & ? & ? & ? & ?). simpl in *.
      split_and!; try done; lia.
    + inversion Hs; subst. unfold pow_valid; simpl. split_and!; try done; lia.
Qed.

(** [solve] returns as soon as a nonce within its budget and within 32 bits
    meets the target. *)
Lemma solve_loop_total fuel : ∀ b k,
  (k ≤ fuel)%nat →
  0 ≤ nTime b < 2 ^ 32 → 0 ≤ nNonce b → nNonce b + Z.of_nat k < 2 ^ 32 →
  hash_header (hashPrevBlock b) (hashMerkleRoot b) (nTime b) (nNonce b + Z.of_nat k)
  ≤ regtest_target →
  ∃ b', solve_loop fuel b = Ok b'.
Proof.
  induction fuel as [|fuel IH]; intros b k Hk Ht Hn Hmax Hh.
  - assert (k = 0%nat) as -> by lia. simpl. rewrite block_rehash_ok, bind_Ok by lia.
    simpl. rewrite Z.add_0_r in Hh. rewrite bool_decide_eq_false_2 by lia. eauto.
  - simpl. rewrite block_rehash_ok, bind_Ok by lia. simpl.
    case_bool_decide as Hb; [|eauto].
    destruct k as [|k]; [rewrite Z.add_0_r in Hh; lia|].
    apply (IH (bump_nonce _) k); simpl; try lia.
    replace (nNonce b + 1 + Z.of_nat k) with (nNonce b + Z.of_nat (S k)) by lia. done.
Qed.

Lemma create_block_inv prev coinbase t b :
  create_block prev coinbase t = Ok b →
  hashPrevBlock b = prev ∧ nTime b = t ∧ nNonce b = 0 ∧ vtx b = [coinbase]
  ∧ merkle_valid b.
Proof.
  unfold create_block. destruct (calc_merkle_root _) as [root|] eqn:Em; [|done].
  rewrite bind_Ok. intros Hr. apply block_rehash_inv in Hr as (-> & _ & _).
  simpl. split_and!; try done.
Qed.

Lemma merkle_valid_solved fuel b b' :
  solve_loop fuel b = Ok b' → merkle_valid b → merkle_valid b'.
Proof.
  intros Hs Hm. apply solve_loop_inv in Hs as (_ & _ & Hr & _ & Hv & _).
  unfold merkle_valid, calc_merkle_root in *. by rewrite Hv, Hr.
Qed.

Lemma add_tx_inv fuel b tx b' :
  add_tx fuel b tx = Ok b' →
  vtx b' = vtx b ++ [tx] ∧ merkle_valid b' ∧ pow_valid b'
  ∧ hashPrevBlock b' = hashPrevBlock b ∧ nTime b' = nTime b.
Proof.
  unfold add_tx, solve. cbv zeta. destruct (calc_merkle_root _) as [root|] eqn:Em; [|done].
  rewrite bind_Ok. simpl. intros Hs.
  pose proof (merkle_valid_solved _ _ _ Hs) as Hm.
  apply solve_loop_inv in Hs as (Hp & ? & ? & ? & Hv & ?). simpl in *.
  split_and!; try done. apply Hm. unfold merkle_valid; simpl. exact Em.
Qed.

End BlockFacts.

(** ** Invariants of the requests *)

Section Hoare.
Context {A B : Type} (I : call → Prop).

Lemma hoare_ret (a : A) (Q : A → Prop) : Q a → hoare (Ret a) I Q.
Proof. intros Hq tr o Hx. inversion Hx; subst. split; [constructor|]. by intros ? [= <-]. Qed.

Lemma hoare_fail e (Q : A → Prop) : hoare (Fail e) I Q.
Proof. intros tr o Hx. inversion Hx; subst. split; [constructor|done]. Qed.

Lemma hoare_call c (k : reply → prog A) (Q : A → Prop) :
  I c → (∀ r, hoare (k r) I Q) → hoare (Call c k) I Q.
Proof.
  intros Hc Hk tr o Hx. inversion Hx as [| |c' k' r tr' o' Hk']; subst.
  destruct (Hk r _ _ Hk') as [Hall Hq]. split; [by constructor|done].
Qed.

Lemma hoare_bind (m : prog A) (f : A → prog B) (Q1 : A → Prop) (Q2 : B → Prop) :
  hoare m I Q1 → (∀ a, Q1 a → hoare (f a) I Q2) → hoare (m ≫= f) I Q2.
Proof.
  intros Hm Hf tr o Hx.
  destruct (exec_bind_inv _ _ _ _ Hx) as [(e & He & ->)|(a & tr1 & tr2 & -> & H1 & H2)].
  - destruct (Hm _ _ He) as [Hall _]. done.
  - destruct (Hm _ _ H1) as [Hall1 Hq]. destruct (Hf a (Hq a eq_refl) _ _ H2) as [Hall2 Hq2].
    split; [by apply Forall_app|done].
Qed.

Lemma hoare_weaken (p : prog A) (Q Q' : A → Prop) :
  hoare p I Q → (∀ a, Q a → Q' a) → hoare p I Q'.
Proof. intros Hp Hq tr o Hx. destruct (Hp _ _ Hx) as [? Hr]. split; [done|]. eauto. Qed.

Lemma hoare_lift (m : result A) (Q : A → Prop) :
  (∀ a, m = Ok a → Q a) → hoare (lift m) I Q.
Proof. destruct m; intros Hq; [apply hoare_ret; eauto|apply hoare_fail]. Qed.

End Hoare.

Lemma hoare_lift_True {A} I (m : result A) : hoare (lift m) I (λ _, True).
Proof. by apply hoare_lift. Qed.

Lemma hoare_rpc I c : I c → hoare (rpc c) I (λ _, True).
Proof.
  intros Hc. apply hoare_call; [done|]. intros r.
  destruct r; (apply hoare_ret || apply hoare_fail); done.
Qed.

Lemma hoare_sleep I ms : I (Sleep ms) → hoare (sleep ms) I (λ _, True).
Proof. intros Hc. apply hoare_call; [done|]. intros r. by apply hoare_ret. Qed.

Lemma hoare_yield I inst : I (Yield inst) → hoare (yield inst) I (λ _, True).
Proof.
  intros Hc. apply hoare_call; [done|]. intros r.
  destruct r; (apply hoare_ret || apply hoare_fail); done.
Qed.

Lemma hoare_as {A} I (as_ : reply → prog A) r :
  (∀ r, (∃ a, as_ r = Ret a) ∨ as_ r = Fail TypeError) → hoare (as_ r) I (λ _, True).
Proof. intros Has. destruct (Has r) as [[a ->]| ->]; [by apply hoare_ret|apply hoare_fail]. Qed.

Lemma hoare_rpc_as {A} I c (as_ : reply → prog A) :
  I c → (∀ r, (∃ a, as_ r = Ret a) ∨ as_ r = Fail TypeError) →
  hoare (rpc c ≫= as_) I (λ _, True).
Proof.
  intros Hc Has. eapply hoare_bind; [by apply hoare_rpc|]. intros r _. by apply hoare_as.
Qed.

Ltac as_cases := intros r; destruct r; simpl; eauto.

Section DriverInvariants.
Context `{Hashing} `{Framework}.

Lemma hoare_assert I b : hoare (assert_ b) I (λ _, b = true).
Proof. unfold assert_. apply hoare_lift. by destruct b. Qed.

Lemma hoare_assert_raises I code msg c :
  I c → hoare (assert_raises_rpc_error code msg c) I (λ _, True).
Proof.
  intros Hc. apply hoare_call; [done|]. intros r.
  destruct r; simpl; try apply hoare_fail.
  case_bool_decide; [|apply hoare_fail].
  destruct (message_matches _ _); [by apply hoare_ret|apply hoare_fail].
Qed.

Lemma hoare_in_mempool I txid : I GetRawMempool → hoare (in_mempool txid) I (λ _, True).
Proof.
  intros Hc. unfold in_mempool. eapply hoare_bind.
  - apply hoare_rpc_as; [done|as_cases].
  - intros pool _. by apply hoare_ret.
Qed.

Lemma hoare_best_mediantime I :
  I GetBestBlockHash → (∀ h, I (GetBlockHeader h)) → hoare best_mediantime I (λ _, True).
Proof.
  intros H1 H2. unfold best_mediantime. eapply hoare_bind.
  - apply hoare_rpc_as; [done|as_cases].
  - intros h _. apply hoare_rpc_as; [apply H2|as_cases].
Qed.

Lemma hoare_sha256_of I b : hoare (sha256_of b) I (λ _, True).
Proof. unfold sha256_of. destruct (block_sha256 b); [by apply hoare_ret|apply hoare_fail]. Qed.

Lemma waitFor_loop_O fn msg :
  waitFor_loop O fn msg
  = (ok ← fn; if ok : bool then Ret tt else Fail (TimeoutException msg)).
Proof. reflexivity. Qed.

Lemma waitFor_loop_S k fn msg :
  waitFor_loop (S k) fn msg
  = (ok ← fn; if ok : bool then Ret tt
              else _ ← sleep sleepAmt; waitFor_loop k fn msg).
Proof. reflexivity. Qed.

Lemma climb_S k i :
  climb (S k) i
  = (b ← next_block (NOV152018_START_TIME + i - 1);
     _ ← yield (accepted b); climb k (i + 1)).
Proof. reflexivity. Qed.

Lemma hoare_waitFor_loop I sleeps fn msg :
  hoare fn I (λ _, True) → (∀ ms, I (Sleep ms)) →
  hoare (waitFor_loop sleeps fn msg) I (λ _, True).
Proof.
  intros Hfn Hs. induction sleeps as [|k IH].
  - rewrite waitFor_loop_O.
    eapply hoare_bind; [exact Hfn|]. intros [] _; [by apply hoare_ret|apply hoare_fail].
  - rewrite waitFor_loop_S.
    eapply hoare_bind; [exact Hfn|]. intros [] _; [by apply hoare_ret|].
    eapply hoare_bind; [apply hoare_sleep, Hs|]. intros _ _. exact IH.
Qed.

(** What [next_block] returns is ready, carries the time asked for and the
    coinbase alone. *)
Lemma hoare_next_block I t :
  I GetBlockchainInfo → I GetBestBlockHash →
  hoare (next_block t) I
    (λ b, block_ready b ∧ nTime b = t
          ∧ ∃ height coinbase, rehash (create_coinbase height) = Ok coinbase
                               ∧ vtx b = [coinbase]).
Proof.
  intros H1 H2. unfold next_block.
  eapply hoare_bind; [apply hoare_rpc_as; [done|as_cases]|]. intros height _.
  eapply hoare_bind; [apply (hoare_lift _ _ (λ cb, rehash (create_coinbase height) = Ok cb));
                      by intros|].
  intros coinbase Hcb.
  eapply hoare_bind; [apply hoare_rpc_as; [done|as_cases]|]. intros best _.
  eapply hoare_bind; [apply (hoare_lift _ _ (λ b, create_block best coinbase t = Ok b));
                      by intros|].
  intros block Hb. apply hoare_lift. intros b Hs. unfold solve in Hs.
  apply create_block_inv in Hb as (Hprev & Ht & Hn & Hv & Hm).
  pose proof (merkle_valid_solved _ _ _ Hs Hm) as Hm'.
  apply solve_loop_inv in Hs as (Hp & _ & _ & Ht' & Hv' & _).
  split_and!; [by split|congruence|]. exists height, coinbase. split; [done|congruence].
Qed.

Lemma hoare_climb rounds : ∀ i, hoare (climb rounds i) yields_ready (λ _, True).
Proof.
  induction rounds as [|k IH]; intros i; [by apply hoare_ret|]. rewrite climb_S.
  eapply hoare_bind; [by apply hoare_next_block|]. intros b (Hr & _).
  eapply hoare_bind; [apply hoare_yield; simpl; constructor; [done|constructor]|].
  intros _ _. apply IH.
Qed.

Lemma hoare_reorg_deactivate I txid nov fork :
  I GetRawMempool → (∀ h, I (InvalidateBlock h)) → (∀ ms, I (Sleep ms)) →
  hoare (reorg_deactivate txid nov fork) I (λ _, True).
Proof.
  intros H1 H2 H3. unfold reorg_deactivate.
  eapply hoare_bind; [by apply hoare_in_mempool|]. intros present _.
  eapply hoare_bind; [apply hoare_assert|]. intros _ _.
  eapply hoare_bind; [apply hoare_sha256_of|]. intros h _.
  eapply hoare_bind; [apply hoare_rpc, H2|]. intros _ _.
  eapply hoare_bind; [apply hoare_waitFor_loop; [by apply hoare_in_mempool|done]|].
  intros _ _.
  eapply hoare_bind; [apply hoare_sha256_of|]. intros h' _.
  eapply hoare_bind; [apply hoare_rpc, H2|]. intros _ _.
  apply hoare_waitFor_loop; [|done].
  eapply hoare_bind; [by apply hoare_in_mempool|]. intros p _. by apply hoare_ret.
Qed.

Lemma hoare_create_checkdatasig_tx I count :
  I ListUnspent → (∀ hex, I (SignRawTransaction hex)) →
  hoare (create_checkdatasig_tx count) I (λ _, True).
Proof.
  intros H1 H2. unfold create_checkdatasig_tx.
  eapply hoare_bind; [apply hoare_rpc_as; [done|as_cases]|]. intros utxos _.
  eapply hoare_bind; [apply hoare_lift_True|]. intros tx _.
  eapply hoare_bind; [apply hoare_lift_True|]. intros hex _.
  apply hoare_rpc_as; [apply H2|as_cases].
Qed.

(** Every block [get_tests] hands over is ready, in every run. *)
Lemma hoare_get_tests : hoare get_tests yields_ready (λ _, True).
Proof.
  unfold get_tests.
  eapply hoare_bind; [by apply hoare_rpc|]. intros _ _.
  eapply hoare_bind; [by apply hoare_create_checkdatasig_tx|]. intros tx_hex _.
  eapply hoare_bind; [apply hoare_rpc_as; [done|as_cases]|]. intros txid _.
  eapply hoare_bind; [by apply hoare_in_mempool|]. intros present _.
  eapply hoare_bind; [apply hoare_assert|]. intros _ _.
  eapply hoare_bind; [by apply hoare_rpc|]. intros _ _.
  eapply hoare_bind; [by apply hoare_in_mempool|]. intros present' _.
  eapply hoare_bind; [apply hoare_assert|]. intros _ _.
  eapply hoare_bind; [apply hoare_lift_True|]. intros spendable _.
  eapply hoare_bind; [apply hoare_rpc_as; [done|as_cases]|]. intros rand _.
  eapply hoare_bind; [apply hoare_lift_True|]. intros [tx0 rest] _.
  eapply hoare_bind; [apply hoare_lift_True|]. intros tx0_hex _.
  eapply hoare_bind; [by apply hoare_assert_raises|]. intros _ _.
  eapply hoare_bind; [by apply hoare_rpc|]. intros _ _.
  eapply hoare_bind; [apply hoare_climb|]. intros _ _.
  eapply hoare_bind; [by apply hoare_best_mediantime|]. intros mtp1 _.
  eapply hoare_bind; [apply hoare_assert|]. intros _ _.
  eapply hoare_bind; [by apply hoare_assert_raises|]. intros _ _.
  eapply hoare_bind; [by apply hoare_next_block|]. intros b _.
  eapply hoare_bind; [apply (hoare_lift _ _ block_ready)|].
  { intros b' Hb. apply add_tx_inv in Hb as (_ & ? & ? & _). by split. }
  intros b' Hb'.
  eapply hoare_bind; [apply hoare_yield; simpl; constructor; [done|constructor]|]. intros _ _.
  eapply hoare_bind; [by apply hoare_next_block|]. intros fork_block (Hf & _).
  eapply hoare_bind; [apply hoare_yield; simpl; constructor; [done|constructor]|]. intros _ _.
  eapply hoare_bind; [by apply hoare_best_mediantime|]. intros mtp2 _.
  eapply hoare_bind; [apply hoare_assert|]. intros _ _.
  eapply hoare_bind; [apply hoare_rpc_as; [done|as_cases]|]. intros tx0id _.
  eapply hoare_bind; [by apply hoare_in_mempool|]. intros present'' _.
  eapply hoare_bind; [apply hoare_assert|]. intros _ _.
  eapply hoare_bind; [by apply hoare_next_block|]. intros nov _.
  eapply hoare_bind; [apply (hoare_lift _ _ block_ready)|].
  { intros b'' Hb. apply add_tx_inv in Hb as (_ & ? & ? & _). by split. }
  intros nov' Hnov.
  eapply hoare_bind; [apply hoare_yield; simpl; constructor; [done|constructor]|]. intros _ _.
  by apply hoare_reorg_deactivate.
Qed.

End DriverInvariants.

(** ** Merkle root and proof of work *)

Section ReadyBlocks.
Context `{Hashing} `{Framework}.

(** C9: [add_tx] appends the transaction to the block, sets the Merkle root
    to the one of the whole transaction list, whose first element the coinbase
    remains, and solves the header again; it returns as soon as a nonce within
    its budget meets the target.  What [next_block] returns has its Merkle root
    and proof of work computed, and in every run of [get_tests], passing or
    not, every block handed to the test manager has both. *)
Theorem merkle_and_pow_before_submission :
  (∀ fuel b tx b',
     add_tx fuel b tx = Ok b' →
     vtx b' = vtx b ++ [tx]
     ∧ head (vtx b') = head (vtx b ++ [tx])
     ∧ (∃ hs, tx_hashes (vtx b ++ [tx]) = Ok hs ∧ hashMerkleRoot b' = calc_merkle hs)
     ∧ pow_valid b')
  ∧ (∀ fuel b tx hs k,
       tx_hashes (vtx b ++ [tx]) = Ok hs →
       (k ≤ fuel)%nat → 0 ≤ nTime b < 2 ^ 32 → 0 ≤ nNonce b →
       nNonce b + Z.of_nat k < 2 ^ 32 →
       hash_header (hashPrevBlock b) (calc_merkle hs) (nTime b) (nNonce b + Z.of_nat k)
       ≤ regtest_target →
       ∃ b', add_tx fuel b tx = Ok b')
  ∧ (∀ t, hoare (next_block t) (λ _, True)
            (λ b, block_ready b ∧ nTime b = t ∧ ∃ coinbase, vtx b = [coinbase]))
  ∧ hoare get_tests yields_ready (λ _, True).
Proof.
  split_and!.
  - intros fuel b tx b' Ha. apply add_tx_inv in Ha as (Hv & Hm & Hp & _).
    split_and!; try done; [by rewrite Hv|].
    unfold merkle_valid, calc_merkle_root in Hm. rewrite Hv in Hm.
    destruct (tx_hashes (vtx b ++ [tx])) as [hs|]; [|done].
    exists hs. split; [done|]. rewrite bind_Ok in Hm. congruence.
  - intros fuel b tx hs k Hhs Hk Ht Hn Hmax Hh. unfold add_tx, solve. cbv zeta.
    unfold calc_merkle_root. simpl vtx. rewrite Hhs, !bind_Ok. simpl.
    by apply (solve_loop_total fuel _ k).
  - intros t. eapply hoare_weaken; [by apply hoare_next_block|].
    intros b (Hr & Ht & height & cb & _ & Hv). split_and!; eauto.
  - apply hoare_get_tests.
Qed.

End ReadyBlocks.

Lemma merkle_and_pow_before_submission_witness :
  ∃ b', add_tx (H := example_hashing) 64 example_block (FromHex example_three_outputs)
        = Ok b'
        ∧ vtx b' = [create_coinbase 132; FromHex example_three_outputs]
        ∧ pow_valid (H := example_hashing) b'.
Proof.
  destruct (merkle_and_pow_before_submission (H := example_hashing)
              (H0 := example_framework)) as (Hinv & Htotal & _).
  destruct (Htotal 64%nat example_block (FromHex example_three_outputs)
              [7000233007821102398491359074805394927412525861820024005194740846773;
               5260736534062799352181454535500531180944425934708034840039129975189290171410]
              1%nat) as [b' Hb'].
  - vm_compute. reflexivity.
  - lia.
  - simpl. lia.
  - simpl. lia.
  - simpl. lia.
  - vm_compute. congruence.
  - exists b'. destruct (Hinv _ _ _ _ Hb') as (Hv & _ & _ & Hp). by split_and!.
Defined.

(** ** Passing runs *)

Section PassingRuns.
Context `{Hashing} `{Framework}.

Lemma exec_create_checkdatasig_tx_ok count tr signed :
  exec (create_checkdatasig_tx count) tr (Ok signed) →
  ∃ utxos tx hex,
    tr = [(ListUnspent, RUtxos utxos); (SignRawTransaction hex, RHex signed)]
    ∧ create_checkdatasig_tx_unsigned utxos count = Ok tx
    ∧ ToHex tx = Ok hex.
Proof.
  unfold create_checkdatasig_tx. intros Hx.
  apply exec_bind_ok in Hx as (utxos & ? & ? & -> & H1 & Hx).
  apply (exec_rpc_as _ _ RUtxos) in H1 as ->; [|apply exec_as_utxos].
  apply exec_bind_ok in Hx as (tx & ? & ? & -> & H1 & Hx).
  apply exec_lift_inv in H1 as [-> Htx].
  apply exec_bind_ok in Hx as (hex & ? & ? & -> & H1 & Hx).
  apply exec_lift_inv in H1 as [-> Hhex].
  apply (exec_rpc_as _ _ RHex) in Hx as ->; [|apply exec_as_hex].
  by exists utxos, tx, hex.
Qed.

Lemma exec_in_mempool_ok txid tr b :
  exec (in_mempool txid) tr (Ok b) →
  ∃ pool, tr = [(GetRawMempool, RHashes pool)] ∧ b = bool_decide (txid ∈ pool).
Proof.
  unfold in_mempool. intros Hx.
  apply exec_bind_ok in Hx as (pool & ? & ? & -> & H1 & Hx).
  apply (exec_rpc_as _ _ RHashes) in H1 as ->; [|apply exec_as_hashes].
  inversion Hx; subst. by exists pool.
Qed.

Lemma exec_assert_raises_ok code msg c tr u :
  exec (assert_raises_rpc_error code msg c) tr (Ok u) →
  ∃ msg', tr = [(c, RError code msg')] ∧ message_matches msg msg' = true.
Proof.
  unfold assert_raises_rpc_error. inversion 1 as [| |c' k' r tr' o' Hk]; subst.
  destruct r; try by inversion Hk.
  case_bool_decide as Hc; [|by inversion Hk]. subst.
  destruct (message_matches msg msg0) eqn:Hm; inversion Hk; subst. by exists msg0.
Qed.

Lemma exec_next_block_ok t tr b :
  exec (next_block t) tr (Ok b) →
  ∃ height best, tr = next_block_calls height best ∧ built_by_next_block height best t b.
Proof.
  unfold next_block. intros Hx.
  apply exec_bind_ok in Hx as (height & ? & ? & -> & H1 & Hx).
  apply (exec_rpc_as _ _ RInfo) in H1 as ->; [|apply exec_as_blocks].
  apply exec_bind_ok in Hx as (coinbase & ? & ? & -> & H1 & Hx).
  apply exec_lift_inv in H1 as [-> Hcb].
  apply exec_bind_ok in Hx as (best & ? & ? & -> & H1 & Hx).
  apply (exec_rpc_as _ _ RHash) in H1 as ->; [|apply exec_as_hash].
  apply exec_bind_ok in Hx as (block & ? & ? & -> & H1 & Hx).
  apply exec_lift_inv in H1 as [-> Hblock].
  apply exec_lift_inv in Hx as [-> Hs].
  exists height, best. split; [done|]. by exists coinbase, block.
Qed.

Lemma exec_climb_ok rounds : ∀ i tr u,
  exec (climb rounds i) tr (Ok u) →
  ∃ rs, length rs = rounds ∧ tr = climb_trace rs
        ∧ ∀ (j : nat) r, rs !! j = Some r →
            built_by_next_block r.1.1 r.1.2 (NOV152018_START_TIME + (i + Z.of_nat j) - 1) r.2.
Proof.
  induction rounds as [|k IH]; intros i tr u Hx.
  - inversion Hx; subst. exists []. split_and!; [done..|]. intros j r Hj. done.
  - rewrite climb_S in Hx.
    apply exec_bind_ok in Hx as (b & ? & ? & -> & H1 & Hx).
    apply exec_next_block_ok in H1 as (height & best & -> & Hb).
    apply exec_bind_ok in Hx as (? & ? & ? & -> & H1 & Hx).
    apply exec_yield_ok in H1 as ->.
    apply IH in Hx as (rs & Hlen & -> & Hrs).
    exists ((height, best, b) :: rs). split_and!.
    + simpl. by rewrite Hlen.
    + unfold climb_trace. simpl. reflexivity.
    + intros [|j] r Hj; simpl in Hj.
      * inversion Hj; subst. simpl. by rewrite Z.add_0_r.
      * apply Hrs in Hj. by replace (i + Z.of_nat (S j)) with (i + 1 + Z.of_nat j) by lia.
Qed.

Lemma exec_best_mediantime_ok tr m :
  exec best_mediantime tr (Ok m) →
  ∃ best, tr = [(GetBestBlockHash, RHash best); (GetBlockHeader best, RHeader m)].
Proof.
  unfold best_mediantime. intros Hx.
  apply exec_bind_ok in Hx as (best & ? & ? & -> & H1 & Hx).
  apply (exec_rpc_as _ _ RHash) in H1 as ->; [|apply exec_as_hash].
  apply (exec_rpc_as _ _ RHeader) in Hx as ->; [|apply exec_as_mediantime].
  by exists best.
Qed.

Lemma exec_sha256_of_ok b tr h :
  exec (sha256_of b) tr (Ok h) → tr = [] ∧ block_sha256 b = Some h.
Proof. unfold sha256_of. destruct (block_sha256 b); inversion 1; by subst. Qed.

Lemma exec_sleep ms tr o : exec (sleep ms) tr o → ∃ r, tr = [(Sleep ms, r)] ∧ o = Ok tt.
Proof.
  unfold sleep. inversion 1 as [| |c' k' r tr' o' Hk]; subst.
  inversion Hk; subst. by exists r.
Qed.

(** A wait that ends well: misses, within the budget of pauses, then a hit. *)
Lemma exec_waitFor_loop_ok (want : list Z → bool) fn msg :
  (∀ tr b, exec fn tr (Ok b) → ∃ pool, tr = [(GetRawMempool, RHashes pool)] ∧ b = want pool) →
  ∀ sleeps tr u,
    exec (waitFor_loop sleeps fn msg) tr (Ok u) →
    ∃ misses hit, tr = waiting_trace misses hit
                  ∧ (length misses ≤ sleeps)%nat
                  ∧ Forall (λ m : list Z * reply, want m.1 = false) misses
                  ∧ want hit = true.
Proof.
  intros Hfn. induction sleeps as [|k IH]; intros tr u Hx.
  - rewrite waitFor_loop_O in Hx.
    apply exec_bind_ok in Hx as (ok & ? & ? & -> & H1 & Hx).
    apply Hfn in H1 as (pool & -> & ->).
    destruct (want pool) eqn:Hw; inversion Hx; subst.
    exists [], pool. by split_and!.
  - rewrite waitFor_loop_S in Hx.
    apply exec_bind_ok in Hx as (ok & ? & ? & -> & H1 & Hx).
    apply Hfn in H1 as (pool & -> & ->).
    destruct (want pool) eqn:Hw.
    + inversion Hx; subst. exists [], pool. split_and!; [done|simpl; lia|done..].
    + apply exec_bind_ok in Hx as (? & ? & ? & -> & H1 & Hx).
      apply exec_sleep in H1 as (r & -> & _).
      apply IH in Hx as (misses & hit & -> & Hlen & Hall & Hhit).
      exists ((pool, r) :: misses), hit. split_and!.
      * reflexivity.
      * simpl. lia.
      * by constructor.
      * done.
Qed.

Lemma exec_reorg_deactivate_ok txid nov fork tr u :
  exec (reorg_deactivate txid nov fork) tr (Ok u) →
  ∃ d, tr = reorg_trace d ∧ reorg_facts txid nov fork d.
Proof.
  unfold reorg_deactivate, waitFor. intros Hx.
  apply exec_bind_ok in Hx as (present & ? & ? & -> & H1 & Hx).
  apply exec_in_mempool_ok in H1 as (pool & -> & ->).
  apply exec_bind_ok in Hx as (? & ? & ? & -> & H1 & Hx).
  apply exec_assert_ok in H1 as [-> Hpool].
  apply exec_bind_ok in Hx as (h1 & ? & ? & -> & H1 & Hx).
  apply exec_sha256_of_ok in H1 as [-> Hh1].
  apply exec_bind_ok in Hx as (r1 & ? & ? & -> & H1 & Hx).
  apply exec_rpc_ok in H1 as [-> _].
  apply exec_bind_ok in Hx as (? & ? & ? & -> & H1 & Hx).
  apply (exec_waitFor_loop_ok (λ pool, bool_decide (txid ∈ pool))) in H1
    as (misses1 & hit1 & -> & Hlen1 & Hall1 & Hhit1); [|apply exec_in_mempool_ok].
  apply exec_bind_ok in Hx as (h2 & ? & ? & -> & H1 & Hx).
  apply exec_sha256_of_ok in H1 as [-> Hh2].
  apply exec_bind_ok in Hx as (r2 & ? & ? & -> & H1 & Hx).
  apply exec_rpc_ok in H1 as [-> _].
  apply (exec_waitFor_loop_ok (λ pool, negb (bool_decide (txid ∈ pool)))) in Hx
    as (misses2 & hit2 & -> & Hlen2 & Hall2 & Hhit2).
  - exists (mkReorg pool h1 r1 misses1 hit1 h2 r2 misses2 hit2).
    split; [reflexivity|]. unfold reorg_facts; simpl.
    apply negb_true_iff, bool_decide_eq_false in Hpool.
    apply bool_decide_eq_true in Hhit1.
    apply negb_true_iff, bool_decide_eq_false in Hhit2.
    split_and!; try done.
    + eapply Forall_impl; [exact Hall1|]. intros m Hm. by apply bool_decide_eq_false in Hm.
    + eapply Forall_impl; [exact Hall2|]. intros m Hm.
      apply negb_false_iff in Hm. by apply bool_decide_eq_true in Hm.
  - intros tr b Hb. apply exec_bind_ok in Hb as (present & ? & ? & -> & H1 & Hb).
    apply exec_in_mempool_ok in H1 as (pool' & -> & ->).
    inversion Hb; subst. by exists pool'.
Qed.

(** Every passing run of [get_tests] has the shape of [passing_trace]. *)
Lemma exec_get_tests_ok tr u :
  exec get_tests tr (Ok u) → ∃ d, tr = passing_trace d ∧ passing_facts d.
Proof.
  unfold get_tests. intros Hx.
  apply exec_bind_ok in Hx as (gen1 & ? & ? & -> & H1 & Hx).
  apply exec_rpc_ok in H1 as [-> _].
  apply exec_bind_ok in Hx as (tx_hex & ? & ? & -> & H1 & Hx).
  apply exec_create_checkdatasig_tx_ok in H1 as (utxos & unsigned & hex & -> & Hun & Hhex).
  apply exec_bind_ok in Hx as (txid & ? & ? & -> & H1 & Hx).
  apply (exec_rpc_as _ _ RHash) in H1 as ->; [|apply exec_as_hash].
  apply exec_bind_ok in Hx as (present & ? & ? & -> & H1 & Hx).
  apply exec_in_mempool_ok in H1 as (pool1 & -> & ->).
  apply exec_bind_ok in Hx as (? & ? & ? & -> & H1 & Hx).
  apply exec_assert_ok in H1 as [-> Hpool1]. apply bool_decide_eq_true in Hpool1.
  apply exec_bind_ok in Hx as (gen2 & ? & ? & -> & H1 & Hx).
  apply exec_rpc_ok in H1 as [-> _].
  apply exec_bind_ok in Hx as (present2 & ? & ? & -> & H1 & Hx).
  apply exec_in_mempool_ok in H1 as (pool2 & -> & ->).
  apply exec_bind_ok in Hx as (? & ? & ? & -> & H1 & Hx).
  apply exec_assert_ok in H1 as [-> Hpool2].
  apply negb_true_iff, bool_decide_eq_false in Hpool2.
  apply exec_bind_ok in Hx as (spendable & ? & ? & -> & H1 & Hx).
  apply exec_lift_inv in H1 as [-> Hreg].
  apply exec_bind_ok in Hx as (rand & ? & ? & -> & H1 & Hx).
  apply (exec_rpc_as _ _ RInt) in H1 as ->; [|apply exec_as_int].
  apply exec_bind_ok in Hx as ([tx0 rest] & ? & ? & -> & H1 & Hx).
  apply exec_lift_inv in H1 as [-> Hspend].
  apply exec_bind_ok in Hx as (tx0_hex & ? & ? & -> & H1 & Hx).
  apply exec_lift_inv in H1 as [-> Htx0].
  apply exec_bind_ok in Hx as (? & ? & ? & -> & H1 & Hx).
  apply exec_assert_raises_ok in H1 as (msg1 & -> & Hmsg1).
  apply exec_bind_ok in Hx as (mock & ? & ? & -> & H1 & Hx).
  apply exec_rpc_ok in H1 as [-> _].
  apply exec_bind_ok in Hx as (? & ? & ? & -> & H1 & Hx).
  apply exec_climb_ok in H1 as (rounds & Hlen & -> & Hrounds).
  apply exec_bind_ok in Hx as (mtp1 & ? & ? & -> & H1 & Hx).
  apply exec_best_mediantime_ok in H1 as (best1 & ->).
  apply exec_bind_ok in Hx as (? & ? & ? & -> & H1 & Hx).
  apply exec_assert_ok in H1 as [-> Hmtp1]. apply bool_decide_eq_true in Hmtp1. subst mtp1.
  apply exec_bind_ok in Hx as (? & ? & ? & -> & H1 & Hx).
  apply exec_assert_raises_ok in H1 as (msg2 & -> & Hmsg2).
  apply exec_bind_ok in Hx as (b7 & ? & ? & -> & H1 & Hx).
  apply exec_next_block_ok in H1 as (h7 & p7 & -> & Hb7).
  apply exec_bind_ok in Hx as (rejected_block & ? & ? & -> & H1 & Hx).
  apply exec_lift_inv in H1 as [-> Hadd7].
  apply exec_bind_ok in Hx as (? & ? & ? & -> & H1 & Hx).
  apply exec_yield_ok in H1 as ->.
  apply exec_bind_ok in Hx as (fork_block & ? & ? & -> & H1 & Hx).
  apply exec_next_block_ok in H1 as (h8 & p8 & -> & Hb8).
  apply exec_bind_ok in Hx as (? & ? & ? & -> & H1 & Hx).
  apply exec_yield_ok in H1 as ->.
  apply exec_bind_ok in Hx as (mtp2 & ? & ? & -> & H1 & Hx).
  apply exec_best_mediantime_ok in H1 as (best2 & ->).
  apply exec_bind_ok in Hx as (? & ? & ? & -> & H1 & Hx).
  apply exec_assert_ok in H1 as [-> Hmtp2]. apply bool_decide_eq_true in Hmtp2. subst mtp2.
  apply exec_bind_ok in Hx as (tx0id & ? & ? & -> & H1 & Hx).
  apply (exec_rpc_as _ _ RHash) in H1 as ->; [|apply exec_as_hash].
  apply exec_bind_ok in Hx as (present3 & ? & ? & -> & H1 & Hx).
  apply exec_in_mempool_ok in H1 as (pool3 & -> & ->).
  apply exec_bind_ok in Hx as (? & ? & ? & -> & H1 & Hx).
  apply exec_assert_ok in H1 as [-> Hpool3]. apply bool_decide_eq_true in Hpool3.
  apply exec_bind_ok in Hx as (b9 & ? & ? & -> & H1 & Hx).
  apply exec_next_block_ok in H1 as (h9 & p9 & -> & Hb9).
  apply exec_bind_ok in Hx as (nov & ? & ? & -> & H1 & Hx).
  apply exec_lift_inv in H1 as [-> Hadd9].
  apply exec_bind_ok in Hx as (? & ? & ? & -> & H1 & Hx).
  apply exec_yield_ok in H1 as ->.
  apply exec_reorg_deactivate_ok in Hx as (rg & -> & Hrg).
  exists (mkRun gen1 utxos unsigned hex tx_hex txid pool1 gen2 pool2 spendable rand tx0
            rest tx0_hex msg1 mock rounds best1 msg2 (h7, p7) b7 rejected_block (h8, p8)
            fork_block best2 tx0id pool3 (h9, p9) b9 nov rg).
  split.
  - unfold passing_trace. simpl. reflexivity.
  - unfold passing_facts. simpl. by split_and!.
Qed.

End PassingRuns.

(** ** Median-time-past *)

(** The element of a window that has [k] elements at or below it and the
    others at or above it is the [k]-th of the sorted window. *)
Lemma nth_merge_sort_split (w low high : list Z) (x : Z) :
  w ≡ₚ low ++ x :: high →
  Forall (λ t, t ≤ x) low → Forall (λ t, x ≤ t) high →
  nth (length low) (merge_sort Z.le w) 0 = x.
Proof.
  intros Hperm Hlow Hhigh.
  assert (Heq : merge_sort Z.le w = merge_sort Z.le low ++ x :: merge_sort Z.le high).
  { apply (StronglySorted_unique Z.le).
    - apply StronglySorted_merge_sort; apply _.
    - apply StronglySorted_app_2.
      + intros x1 x2 H1 H2. rewrite merge_sort_Permutation in H1.
        rewrite List.Forall_forall in Hlow, Hhigh.
        apply list_elem_of_In, Hlow in H1.
        apply elem_of_cons in H2 as [->|H2]; [done|].
        rewrite merge_sort_Permutation in H2. apply list_elem_of_In, Hhigh in H2. lia.
      + apply StronglySorted_merge_sort; apply _.
      + apply StronglySorted_cons. split.
        * rewrite merge_sort_Permutation. done.
        * apply StronglySorted_merge_sort; apply _.
    - by rewrite !merge_sort_Permutation. }
  rewrite Heq, app_nth2; rewrite (Permutation_length (merge_sort_Permutation Z.le low)).
  - by rewrite Nat.sub_diag.
  - lia.
Qed.

(** With six blocks stamped [T-1 .. T+4] on top of a chain whose last five
    blocks are older than [T-1], the median of the last eleven is [T-1]; one
    more block stamped [T+6] moves it to [T]. *)
Lemma median_time_past_walk (old : list Z) :
  let T := NOV152018_START_TIME in
  (5 ≤ length old)%nat → Forall (λ t, t < T - 1) (take 5 old) →
  median_time_past ([T + 4; T + 3; T + 2; T + 1; T; T - 1] ++ old) = T - 1
  ∧ median_time_past ([T + 6; T + 4; T + 3; T + 2; T + 1; T; T - 1] ++ old) = T.
Proof.
  intros T Hlen Hold. unfold median_time_past, nMedianTimeSpan. split.
  - change (take 11 ([T + 4; T + 3; T + 2; T + 1; T; T - 1] ++ old))
      with ([T + 4; T + 3; T + 2; T + 1; T; T - 1] ++ take 5 old).
    rewrite (Permutation_length (merge_sort_Permutation Z.le _)).
    rewrite length_app, length_take. simpl length.
    replace ((6 + 5 `min` length old) / 2)%nat with (length (take 5 old)).
    2:{ rewrite length_take, !Nat.min_l by lia. reflexivity. }
    apply (nth_merge_sort_split _ _ [T; T + 1; T + 2; T + 3; T + 4]).
    + rewrite (Permutation_app_comm _ (take 5 old)). apply Permutation_app_head.
      change [T + 4; T + 3; T + 2; T + 1; T; T - 1]
        with (reverse [T - 1; T; T + 1; T + 2; T + 3; T + 4]).
      apply reverse_Permutation.
    + eapply Forall_impl; [exact Hold|]. intros t Ht. simpl in Ht. lia.
    + repeat constructor; lia.
  - change (take 11 ([T + 6; T + 4; T + 3; T + 2; T + 1; T; T - 1] ++ old))
      with ([T + 6; T + 4; T + 3; T + 2; T + 1; T; T - 1] ++ take 4 old).
    rewrite (Permutation_length (merge_sort_Permutation Z.le _)).
    rewrite length_app, length_take. simpl length.
    replace ((7 + 4 `min` length old) / 2)%nat with (length (take 4 old ++ [T - 1])).
    2:{ rewrite length_app, length_take, !Nat.min_l by lia. reflexivity. }
    apply (nth_merge_sort_split _ _ [T + 1; T + 2; T + 3; T + 4; T + 6]).
    + rewrite (Permutation_app_comm _ (take 4 old)). rewrite <- app_assoc.
      apply Permutation_app_head.
      change [T + 6; T + 4; T + 3; T + 2; T + 1; T; T - 1]
        with (reverse [T - 1; T; T + 1; T + 2; T + 3; T + 4; T + 6]).
      apply reverse_Permutation.
    + apply Forall_app. split; [|repeat constructor; lia].
      assert (Hsub : Forall (λ t, t < T - 1) (take 4 old)).
      { replace (take 4 old) with (take 4 (take 5 old)) by (rewrite take_take; f_equal).
        by apply Forall_take. }
      eapply Forall_impl; [exact Hsub|]. intros t Ht. simpl in Ht. lia.
    + repeat constructor; lia.
Qed.

(** ** The example run *)

(** Against a node whose pool needs one pause to follow a rollback the test
    passes. *)
Lemma example_run_digest :
  run_digest (example_run 1)
  = (Ok tt,
     [2000000000],
     [1999999999; 2000000000],
     [[(1999999999, 1%nat, ExpectTrue)]; [(2000000000, 1%nat, ExpectTrue)];
      [(2000000001, 1%nat, ExpectTrue)]; [(2000000002, 1%nat, ExpectTrue)];
      [(2000000003, 1%nat, ExpectTrue)]; [(2000000004, 1%nat, ExpectTrue)];
      [(2000000006, 2%nat, ExpectReject (mkReject 16 "bad-blk-signatures"))];
      [(2000000006, 1%nat, ExpectTrue)]; [(2000000007, 2%nat, ExpectTrue)]],
     [([0], None);
      ([24], Some (-26, "16: mandatory-script-verify-flag-failed (Opcode missing or not understood)"%string));
      ([24], Some (-26, "16: mandatory-script-verify-flag-failed (Opcode missing or not understood)"%string));
      ([24], None)],
     2%nat,
     2000).
Proof. vm_compute. reflexivity. Qed.

(** Against a node that needs four pauses the first wait runs out. *)
Lemma slow_run_digest :
  run_digest (example_run 4)
  = (Raise (TimeoutException "Transaction shoud be included in the mempool"),
     [2000000000],
     [1999999999; 2000000000],
     [[(1999999999, 1%nat, ExpectTrue)]; [(2000000000, 1%nat, ExpectTrue)];
      [(2000000001, 1%nat, ExpectTrue)]; [(2000000002, 1%nat, ExpectTrue)];
      [(2000000003, 1%nat, ExpectTrue)]; [(2000000004, 1%nat, ExpectTrue)];
      [(2000000006, 2%nat, ExpectReject (mkReject 16 "bad-blk-signatures"))];
      [(2000000006, 1%nat, ExpectTrue)]; [(2000000007, 2%nat, ExpectTrue)]],
     [([0], None);
      ([24], Some (-26, "16: mandatory-script-verify-flag-failed (Opcode missing or not understood)"%string));
      ([24], Some (-26, "16: mandatory-script-verify-flag-failed (Opcode missing or not understood)"%string));
      ([24], None)],
     1%nat,
     3000).
Proof. vm_compute. reflexivity. Qed.

Lemma interp_exec_run {S A} (handle : call → S → reply * S) (p : prog A) s :
  exec p (interp handle p s).2 (interp handle p s).1.1.
Proof.
  destruct (interp handle p s) as [[o s'] tr] eqn:E. simpl. by eapply interp_exec.
Qed.

Lemma digest_outcome run d : run_digest run = d → run.1.1 = d.1.1.1.1.1.1.
Proof. by intros <-. Qed.
Lemma digest_mocktimes run d : run_digest run = d → mocktimes run.2 = d.1.1.1.1.1.2.
Proof. by intros <-. Qed.
Lemma digest_mediantimes run d : run_digest run = d → mediantimes run.2 = d.1.1.1.1.2.
Proof. by intros <-. Qed.
Lemma digest_yields run d : run_digest run = d → yield_summary run.2 = d.1.1.1.2.
Proof. by intros <-. Qed.
Lemma digest_submissions run d : run_digest run = d → submission_summary run.2 = d.1.1.2.
Proof. by intros <-. Qed.
Lemma digest_invalidations run d :
  run_digest run = d → length (invalidations run.2) = d.1.2.
Proof. by intros <-. Qed.
Lemma digest_slept run d : run_digest run = d → slept run.2 = d.2.
Proof. by intros <-. Qed.

Lemma example_outcome : (example_run 1).1.1 = Ok tt.
Proof. exact (digest_outcome _ _ example_run_digest). Qed.

Lemma example_run_passes :
  exec (get_tests (H := example_hashing) (H0 := example_framework)) example_trace (Ok tt).
Proof.
  rewrite <- example_outcome.
  exact (interp_exec_run handle get_tests (example_node 1)).
Qed.

Lemma slow_run_times_out :
  exec (get_tests (H := example_hashing) (H0 := example_framework)) (example_run 4).2
    (Raise (TimeoutException "Transaction shoud be included in the mempool")).
Proof.
  assert (Ho : (example_run 4).1.1
               = Raise (TimeoutException "Transaction shoud be included in the mempool"))
    by exact (digest_outcome _ _ slow_run_digest).
  rewrite <- Ho.
  exact (interp_exec_run handle get_tests (example_node 4)).
Qed.

(** ** What a passing run contains *)

Section PassingTrace.
Context `{Hashing} `{Framework}.

Lemma built_by_next_block_inv height best t b :
  built_by_next_block height best t b →
  nTime b = t ∧ hashPrevBlock b = best ∧ block_ready b
  ∧ ∃ coinbase, rehash (create_coinbase height) = Ok coinbase ∧ vtx b = [coinbase].
Proof.
  intros (cb & blk & Hcb & Hblk & Hs). unfold solve in Hs.
  apply create_block_inv in Hblk as (Hprev & Ht & _ & Hv & Hm).
  pose proof (merkle_valid_solved _ _ _ Hs Hm) as Hm'.
  apply solve_loop_inv in Hs as (Hp & Hprev' & _ & Ht' & Hv' & _).
  split_and!; [congruence|congruence|by split|].
  exists cb. split; [done|congruence].
Qed.

Lemma omap_none {A B} (f : A → option B) (l : list A) :
  Forall (λ x, f x = None) l → omap f l = [].
Proof. induction 1 as [|x l Hx _ IH]; simpl; [done|]. by rewrite Hx. Qed.

(** The requests of the loop and of the reorg phase. *)
Lemma climb_trace_calls rounds :
  Forall (λ e : call * reply,
            e.1 = GetBlockchainInfo ∨ e.1 = GetBestBlockHash ∨ ∃ inst, e.1 = Yield inst)
         (climb_trace rounds).
Proof.
  induction rounds as [|r rounds IH]; [constructor|].
  unfold climb_trace in *. simpl. repeat (constructor; [simpl; eauto|]). exact IH.
Qed.

Lemma waiting_trace_calls misses hit :
  Forall (λ e : call * reply, e.1 = GetRawMempool ∨ ∃ ms, e.1 = Sleep ms)
         (waiting_trace misses hit).
Proof.
  unfold waiting_trace, misses_trace. induction misses as [|m misses IH]; simpl.
  - repeat (constructor; [simpl; eauto|]). constructor.
  - repeat (constructor; [simpl; eauto|]). exact IH.
Qed.

Lemma yields_climb_trace rounds :
  yields (climb_trace rounds) = map (λ r : Z * Z * CBlock, accepted r.2) rounds.
Proof.
  induction rounds as [|r rounds IH]; [done|].
  unfold climb_trace in *. simpl. unfold yields in *. simpl. by rewrite IH.
Qed.

Lemma yields_waiting_trace misses hit : yields (waiting_trace misses hit) = [].
Proof.
  apply omap_none. eapply Forall_impl; [apply waiting_trace_calls|].
  intros [c r] [Hc|[ms Hc]]; simpl in *; by subst.
Qed.

Lemma mocktimes_climb_trace rounds : mocktimes (climb_trace rounds) = [].
Proof.
  apply omap_none. eapply Forall_impl; [apply climb_trace_calls|].
  intros [c r] [Hc|[Hc|[i Hc]]]; simpl in *; by subst.
Qed.

Lemma mocktimes_waiting_trace misses hit : mocktimes (waiting_trace misses hit) = [].
Proof.
  apply omap_none. eapply Forall_impl; [apply waiting_trace_calls|].
  intros [c r] [Hc|[ms Hc]]; simpl in *; by subst.
Qed.

Lemma mediantimes_climb_trace rounds : mediantimes (climb_trace rounds) = [].
Proof.
  apply omap_none. eapply Forall_impl; [apply climb_trace_calls|].
  intros [c r] [Hc|[Hc|[i Hc]]]; simpl in *; by subst.
Qed.

Lemma mediantimes_waiting_trace misses hit : mediantimes (waiting_trace misses hit) = [].
Proof.
  apply omap_none. eapply Forall_impl; [apply waiting_trace_calls|].
  intros [c r] [Hc|[ms Hc]]; simpl in *; by subst.
Qed.



Lemma invalidations_climb_trace rounds : invalidations (climb_trace rounds) = [].
Proof.
  apply omap_none. eapply Forall_impl; [apply climb_trace_calls|].
  intros [c r] [Hc|[Hc|[i Hc]]]; simpl in *; by subst.
Qed.

Lemma invalidations_waiting_trace misses hit : invalidations (waiting_trace misses hit) = [].
Proof.
  apply omap_none. eapply Forall_impl; [apply waiting_trace_calls|].
  intros [c r] [Hc|[ms Hc]]; simpl in *; by subst.
Qed.

Lemma yields_passing_trace d :
  yields (passing_trace d)
  = map (λ r : Z * Z * CBlock, accepted r.2) (rd_rounds d)
    ++ [rejected (rd_rejected d) (Some (mkReject 16 "bad-blk-signatures"));
        accepted (rd_fork_block d); accepted (rd_nov d)].
Proof.
  unfold passing_trace, reorg_trace, yields. simpl.
  rewrite !omap_app. fold (yields (climb_trace (rd_rounds d))).
  rewrite yields_climb_trace. simpl. rewrite !omap_app. simpl.
  fold (yields (waiting_trace (rg_misses1 (rd_reorg d)) (rg_hit1 (rd_reorg d)))).
  fold (yields (waiting_trace (rg_misses2 (rd_reorg d)) (rg_hit2 (rd_reorg d)))).
  by rewrite !yields_waiting_trace.
Qed.

Lemma mocktimes_passing_trace d : mocktimes (passing_trace d) = [NOV152018_START_TIME].
Proof.
  unfold passing_trace, reorg_trace, mocktimes. simpl.
  rewrite !omap_app. fold (mocktimes (climb_trace (rd_rounds d))).
  rewrite mocktimes_climb_trace. simpl. rewrite !omap_app. simpl.
  fold (mocktimes (waiting_trace (rg_misses1 (rd_reorg d)) (rg_hit1 (rd_reorg d)))).
  fold (mocktimes (waiting_trace (rg_misses2 (rd_reorg d)) (rg_hit2 (rd_reorg d)))).
  by rewrite !mocktimes_waiting_trace.
Qed.

Lemma mediantimes_passing_trace d :
  mediantimes (passing_trace d) = [NOV152018_START_TIME - 1; NOV152018_START_TIME].
Proof.
  unfold passing_trace, reorg_trace, mediantimes. simpl.
  rewrite !omap_app. fold (mediantimes (climb_trace (rd_rounds d))).
  rewrite mediantimes_climb_trace. simpl. rewrite !omap_app. simpl.
  fold (mediantimes (waiting_trace (rg_misses1 (rd_reorg d)) (rg_hit1 (rd_reorg d)))).
  fold (mediantimes (waiting_trace (rg_misses2 (rd_reorg d)) (rg_hit2 (rd_reorg d)))).
  by rewrite !mediantimes_waiting_trace.
Qed.


Lemma invalidations_passing_trace d :
  invalidations (passing_trace d) = [rg_nov (rd_reorg d); rg_fork (rd_reorg d)].
Proof.
  unfold passing_trace, reorg_trace, invalidations. simpl.
  rewrite !omap_app. fold (invalidations (climb_trace (rd_rounds d))).
  rewrite invalidations_climb_trace. simpl. rewrite !omap_app. simpl.
  fold (invalidations (waiting_trace (rg_misses1 (rd_reorg d)) (rg_hit1 (rd_reorg d)))).
  fold (invalidations (waiting_trace (rg_misses2 (rd_reorg d)) (rg_hit2 (rd_reorg d)))).
  by rewrite !invalidations_waiting_trace.
Qed.

(** The timestamps of the six rounds. *)
Lemma round_times d :
  passing_facts d →
  map (λ r : Z * Z * CBlock, nTime r.2) (rd_rounds d)
  = [NOV152018_START_TIME - 1; NOV152018_START_TIME; NOV152018_START_TIME + 1;
     NOV152018_START_TIME + 2; NOV152018_START_TIME + 3; NOV152018_START_TIME + 4].
Proof.
  intros (_ & _ & _ & _ & _ & _ & _ & _ & Hlen & Hrounds & _).
  destruct (rd_rounds d) as [|r0 [|r1 [|r2 [|r3 [|r4 [|r5 [|]]]]]]]; try done.
  pose proof (Hrounds 0%nat r0 eq_refl) as Hr0.
  pose proof (Hrounds 1%nat r1 eq_refl) as Hr1.
  pose proof (Hrounds 2%nat r2 eq_refl) as Hr2.
  pose proof (Hrounds 3%nat r3 eq_refl) as Hr3.
  pose proof (Hrounds 4%nat r4 eq_refl) as Hr4.
  pose proof (Hrounds 5%nat r5 eq_refl) as Hr5.
  apply built_by_next_block_inv in Hr0 as (E0 & _), Hr1 as (E1 & _), Hr2 as (E2 & _),
    Hr3 as (E3 & _), Hr4 as (E4 & _), Hr5 as (E5 & _).
  cbn [map]. rewrite E0, E1, E2, E3, E4, E5. simpl. rewrite Z.add_0_r.
  reflexivity.
Qed.

End PassingTrace.


(** * Further properties of the driver *)

(** ** Passing runs of [get_tests] *)

Section PassingRunFacts.
Context `{Hashing} `{Framework}.

(** A passing run overrides the node's clock exactly once, with the
    threshold; it hands over nine test instances, of which the first six are
    blocks stamped [T-1, T, .., T+4] and expected to be accepted; the two
    median times it reads from the node are [T-1] (after the six blocks) and
    [T] (after the activating block, which is stamped [T+6]). *)
Theorem passing_run_clock_walk tr :
  let T := NOV152018_START_TIME in
  exec get_tests tr (Ok tt) →
  ∃ d,
    tr = passing_trace d
    ∧ mocktimes tr = [T]
    ∧ length (yields tr) = 9%nat
    ∧ take 6 (yields tr) = map (λ r : Z * Z * CBlock, accepted r.2) (rd_rounds d)
    ∧ map (λ r : Z * Z * CBlock, nTime r.2) (rd_rounds d)
      = [T - 1; T; T + 1; T + 2; T + 3; T + 4]
    ∧ mediantimes tr = [T - 1; T]
    ∧ nTime (rd_fork_block d) = T + 6.
Proof.
  intros T Hx.
  apply exec_get_tests_ok in Hx as (d & -> & Hd).
  pose proof (round_times d Hd) as Htimes.
  assert (Hlen6 : length (rd_rounds d) = 6%nat) by apply Hd.
  assert (Hfork : nTime (rd_fork_block d) = T + 6).
  { destruct Hd as (_ & _ & _ & _ & _ & _ & _ & _ & _ & _ & _ & _ & _ & Hf & _).
    by apply built_by_next_block_inv in Hf as (-> & _). }
  exists d. split_and!; try done.
  - apply mocktimes_passing_trace.
  - rewrite yields_passing_trace, length_app, length_map, Hlen6. done.
  - rewrite yields_passing_trace, take_app_length'; [done|]. by rewrite length_map.
  - apply mediantimes_passing_trace.
Qed.




Lemma slept_app tr1 tr2 : slept (tr1 ++ tr2) = slept tr1 + slept tr2.
Proof.
  unfold slept. induction tr1 as [|[c r] tr1 IH]; simpl; [done|].
  destruct c; simpl; lia.
Qed.

Lemma slept_waiting_trace misses hit :
  slept (waiting_trace misses hit) = Z.of_nat (length misses) * sleepAmt.
Proof.
  unfold waiting_trace, misses_trace. rewrite slept_app.
  replace (slept [(GetRawMempool, RHashes hit)]) with 0 by reflexivity.
  induction misses as [|m misses IH]; [simpl; lia|].
  cbn [map concat]. rewrite slept_app.
  replace (slept (miss_trace m)) with (sleepAmt) by (unfold slept; simpl; lia).
  cbn [length]. lia.
Qed.

(** The reorg phase of a passing run: the spending transaction is not in the
    pool; the block that included it is invalidated and the pool polled, with
    pauses of [sleepAmt], until the transaction is back; then the activating
    block is invalidated and the pool polled until the transaction is gone.
    Neither wait takes more pauses than fit into three seconds. *)
Theorem passing_run_reorg tr :
  exec get_tests tr (Ok tt) →
  ∃ d prefix,
    tr = prefix ++ reorg_trace (rd_reorg d)
    ∧ tr = passing_trace d
    ∧ reorg_facts (rd_tx0id d) (rd_nov d) (rd_fork_block d) (rd_reorg d)
    ∧ invalidations tr = [rg_nov (rd_reorg d); rg_fork (rd_reorg d)]
    ∧ slept tr
      = Z.of_nat (length (rg_misses1 (rd_reorg d)) + length (rg_misses2 (rd_reorg d)))
        * sleepAmt
    ∧ (length (rg_misses1 (rd_reorg d)) + length (rg_misses2 (rd_reorg d))
       ≤ 2 * sleeps_within 3)%nat.
Proof.
  intros Hx. apply exec_get_tests_ok in Hx as (d & -> & Hd).
  assert (Hrg : reorg_facts (rd_tx0id d) (rd_nov d) (rd_fork_block d) (rd_reorg d))
    by apply Hd.
  eexists d, _. split_and!; try done.
  - unfold passing_trace. rewrite !app_assoc. reflexivity.
  - apply invalidations_passing_trace.
  - unfold passing_trace, reorg_trace. rewrite !slept_app, !slept_waiting_trace.
    assert (Hc : slept (climb_trace (rd_rounds d)) = 0).
    { unfold climb_trace. induction (rd_rounds d) as [|r rs IH]; [done|].
      cbn [map concat]. rewrite slept_app, IH. reflexivity. }
    rewrite Hc. unfold slept. simpl. lia.
  - destruct Hrg as (_ & _ & _ & H1 & _ & _ & H2 & _). lia.
Qed.

End PassingRunFacts.

#[local] Opaque example_run.

Lemma passing_run_clock_walk_witness :
  mocktimes example_trace = [NOV152018_START_TIME]
  ∧ length (yields example_trace) = 9%nat
  ∧ mediantimes example_trace = [NOV152018_START_TIME - 1; NOV152018_START_TIME].
Proof.
  destruct (passing_run_clock_walk (H := example_hashing) (H0 := example_framework)
              example_trace example_run_passes) as (d & _ & Hm & Hl & _ & _ & Hmed & _).
  split; [exact Hm|]. split; [exact Hl|exact Hmed].
Defined.




Lemma passing_run_reorg_witness :
  ∃ h1 h2, invalidations example_trace = [h1; h2].
Proof.
  destruct (passing_run_reorg (H := example_hashing) (H0 := example_framework)
              example_trace example_run_passes) as (d & prefix & _ & _ & _ & Hi & _).
  exists (rg_nov (rd_reorg d)), (rg_fork (rd_reorg d)). exact Hi.
Defined.

(** ** Outcomes of the builders *)

Lemma create_checkdatasig_tx_unsigned_inv utxos count tx :
  create_checkdatasig_tx_unsigned utxos count = Ok tx →
  ∃ u rest signature pubkey fee,
    utxos = u :: rest ∧ 1 ≤ count
    ∧ bytearray_fromhex signature_hex = Ok signature
    ∧ bytearray_fromhex pubkey_hex = Ok pubkey
    ∧ fee_of (PyInt (int_of_decimal (satoshi_round (utxo_amount u) * Qc_of_Z COIN) / count))
      = Ok fee
    ∧ tx = mkTx [CTxIn_of (mkOutPoint (utxo_txid u) (utxo_vout u))]
             (mkTxOut (py_sub (PyInt (int_of_decimal (satoshi_round (utxo_amount u)
                                                      * Qc_of_Z COIN) / count)) fee)
                [Push signature; Push []; Push pubkey; Opcode OP_CHECKDATASIG]
              :: replicate (Z.to_nat count - 1)
                   (mkTxOut (PyInt (int_of_decimal (satoshi_round (utxo_amount u)
                                                    * Qc_of_Z COIN) / count))
                      [Push signature; Push []; Push pubkey; Opcode OP_CHECKDATASIG]))
             None.
Proof.
  unfold create_checkdatasig_tx_unsigned. intros Hc.
  destruct utxos as [|u rest]; [done|].
  rewrite bool_decide_eq_true_2 in Hc by (simpl; lia).
  unfold py_assert in Hc. rewrite bind_Ok, py_index_0, bind_Ok in Hc.
  unfold py_floordiv in Hc. destruct (decide (count = 0)) as [->|Hn]; [done|].
  rewrite bind_Ok in Hc.
  destruct (bytearray_fromhex signature_hex) as [sg|] eqn:Es; [|done].
  rewrite bind_Ok in Hc.
  change (bytearray_fromhex "") with (@Ok (list Byte.byte) []) in Hc. rewrite bind_Ok in Hc.
  destruct (bytearray_fromhex pubkey_hex) as [pk|] eqn:Ep; [|done].
  rewrite bind_Ok in Hc.
  destruct (fee_of _) as [fee|] eqn:Ef; [|done]. rewrite bind_Ok in Hc.
  destruct (Z.to_nat count) as [|k] eqn:Ek; [done|].
  simpl in Hc. inversion Hc; subst.
  exists u, rest, sg, pk, fee. replace (S k - 1)%nat with k by lia.
  split_and!; try done. lia.
Qed.




(** ** Value conservation *)





(** ** When [spend_checkdatasig] returns *)

Section SpendOutcomes.
Context `{Hashing}.

Lemma ser_vin_range ins r :
  ser_vin ins = Ok r → Forall (λ i, 0 ≤ n (prevout i) < 2 ^ 32) ins.
Proof.
  revert r. induction ins as [|i ins IH]; simpl; intros r Hr; [constructor|].
  unfold pack_I in Hr. destruct (decide _) as [Hi|]; [|done]. rewrite bind_Ok in Hr.
  destruct (ser_vin ins) as [r'|] eqn:E; [|done]. constructor; [done|]. by eapply IH.
Qed.

Lemma ser_vout_range outs r :
  ser_vout outs = Ok r → Forall (λ o : Z * CScript, - 2 ^ 63 ≤ o.1 < 2 ^ 63) r.
Proof.
  revert r. induction outs as [|[v sc] outs IH]; simpl; intros r Hr.
  - inversion Hr. constructor.
  - destruct v as [z|q]; simpl in Hr; [|done].
    destruct (decide _) as [Hz|]; [|done]. rewrite bind_Ok in Hr.
    destruct (ser_vout outs) as [r'|] eqn:E; [|done]. simpl in Hr.
    inversion Hr; subst. constructor; [done|]. by eapply IH.
Qed.

(** What [ToHex] returns fits the wire formats. *)
Lemma ToHex_wire_ok tx hex : ToHex tx = Ok hex → wire_ok hex.
Proof.
  unfold ToHex. intros Hx.
  destruct (ser_vin (vin tx)) as [i|] eqn:Ei; [|done]. rewrite bind_Ok in Hx.
  destruct (ser_vout (vout tx)) as [o|] eqn:Eo; [|done]. simpl in Hx.
  inversion Hx; subst. split; simpl.
  - apply ser_vin_inv in Ei as Hi. subst i. by eapply ser_vin_range.
  - by eapply ser_vout_range.
Qed.

Lemma fee_of_int_inv v f : fee_of (PyInt v) = Ok (PyInt f) → 100000 < v ∧ f = 1000.
Proof.
  rewrite fee_of_int. destruct (decide (100000 < v)); [|done].
  intros [= <-]. done.
Qed.

(** What a returning call of [spend_checkdatasig] found and built. *)
Lemma spend_checkdatasig_returns rand l tx rest :
  spend_checkdatasig rand l = Ok (tx, rest) →
  ∃ o v script h,
    l = rest ++ [o]
    ∧ py_index (vout (pso_tx o)) (pso_n o) = Ok (mkTxOut (PyInt v) script)
    ∧ sha256 (pso_tx o) = Some h
    ∧ 0 ≤ pso_n o < 2 ^ 32
    ∧ 100000 < v < 2 ^ 63 + 1000
    ∧ tx = mkTx [CTxIn_of (mkOutPoint h (pso_n o))]
             [mkTxOut (PyInt (v - 1000)) [];
              mkTxOut (PyInt 0) [Num rand; Opcode OP_RETURN]]
             (Some (hash_tx (mkRaw [CTxIn_of (mkOutPoint h (pso_n o))]
                               [(v - 1000, []); (0, [Num rand; Opcode OP_RETURN])]))).
Proof.
  intros Hs.
  apply spend_checkdatasig_inv in Hs
    as (o & out & h & fee & hex & -> & Ho & Hh & Hfee & Hhex & ->).
  apply ToHex_wire_ok in Hhex as Hw. apply ToHex_inv in Hhex as [Hin Hout].
  simpl in Hin, Hout.
  destruct hex as [rin rout]. simpl in *. subst rin.
  destruct rout as [|[a sa] [|[b sb] [|]]]; simpl in Hout; try done.
  inversion Hout as [[Ha Hsa Hb Hsb]]. subst sa sb b.
  destruct out as [[v|q] script]; simpl in *; [|by destruct fee].
  destruct fee as [f|q]; simpl in Ha; [|done].
  apply fee_of_int_inv in Hfee as [Hv ->]. inversion Ha; subst a.
  destruct Hw as [Hwin Hwout]. simpl in *.
  apply Forall_cons in Hwin as [Hn _]. apply Forall_cons in Hwout as [Hr _].
  simpl in *. exists o, v, script, h. split_and!; try done; lia.
Qed.

(** [spend_checkdatasig] returns exactly when the last entry of the list
    names, by an index that fits 32 bits unsigned, an output of more than
    100000 satoshis of a hashed transaction (and the value less the fee fits
    64 bits).  It then removes that entry and returns the transaction that
    spends it into the value less 1000 and an [OP_RETURN] output of value 0
    with the random number.  So the default entry, with [n = -1], is never
    spent, nor is an output of a transaction that was not hashed. *)
Theorem spend_checkdatasig_returns_iff (rand : Z) (l : list PreviousSpendableOutput)
    (tx : CTransaction) (rest : list PreviousSpendableOutput) :
  (spend_checkdatasig rand l = Ok (tx, rest)
   ↔ ∃ o v script h,
       l = rest ++ [o]
       ∧ py_index (vout (pso_tx o)) (pso_n o) = Ok (mkTxOut (PyInt v) script)
       ∧ sha256 (pso_tx o) = Some h
       ∧ 0 ≤ pso_n o < 2 ^ 32
       ∧ 100000 < v < 2 ^ 63 + 1000
       ∧ tx = mkTx [CTxIn_of (mkOutPoint h (pso_n o))]
                [mkTxOut (PyInt (v - 1000)) [];
                 mkTxOut (PyInt 0) [Num rand; Opcode OP_RETURN]]
                (Some (hash_tx (mkRaw [CTxIn_of (mkOutPoint h (pso_n o))]
                                  [(v - 1000, []); (0, [Num rand; Opcode OP_RETURN])]))))
  ∧ (∀ e, spend_checkdatasig rand (l ++ [PreviousSpendableOutput_default]) ≠ Ok e).
Proof.
  split; [split|].
  - apply spend_checkdatasig_returns.
  - intros (o & v & script & h & -> & Ho & Hh & Hn & Hv & ->).
    unfold spend_checkdatasig.
    rewrite py_pop_snoc, bind_Ok. cbv beta iota.
    rewrite Ho, bind_Ok. unfold outpoint_of. rewrite Hh, bind_Ok, py_index_0, bind_Ok.
    simpl nValue. rewrite fee_of_above, bind_Ok by lia. simpl deduct_first.
    rewrite bind_Ok. unfold rehash, ToHex. cbn [vin vout ser_vin ser_vout nValue n prevout
      CTxIn_of scriptPubKey py_sub pack_q].
    unfold pack_I. destruct (decide (0 ≤ pso_n o < 2 ^ 32)); [|lia].
    rewrite ?bind_Ok. destruct (decide (- 2 ^ 63 ≤ v - 1000 < 2 ^ 63)); [|lia].
    rewrite ?bind_Ok. destruct (decide (- 2 ^ 63 ≤ 0 < 2 ^ 63)); [|lia].
    by rewrite ?bind_Ok.
  - intros [tx' rest'] Hs.
    apply spend_checkdatasig_inv in Hs
      as (o & out & h & fee & hex & Hl & Ho & Hh & _).
    apply app_inj_tail in Hl as [_ <-]. done.
Qed.

End SpendOutcomes.

Lemma spend_checkdatasig_returns_iff_witness :
  ∃ tx, spend_checkdatasig (H := example_hashing) 5
          [mkPSO (mkTx [] [mkTxOut (PyInt 200000) []] (Some 9)) 0] = Ok (tx, [])
        ∧ map nValue (vout tx) = [PyInt 199000; PyInt 0].
Proof.
  eexists. split.
  - apply (proj2 (proj1 (spend_checkdatasig_returns_iff (H := example_hashing) 5
                           [mkPSO (mkTx [] [mkTxOut (PyInt 200000) []] (Some 9)) 0] _ []))).
    exists (mkPSO (mkTx [] [mkTxOut (PyInt 200000) []] (Some 9)) 0), 200000, [], 9.
    repeat split; first [reflexivity|simpl; lia].
  - reflexivity.
Defined.

(** ** What is sent for signing *)

Lemma exec_rpc_inv c tr o :
  exec (rpc c) tr o → ∃ r, tr = [(c, r)] ∧ ∀ a, o = Ok a → a = r.
Proof.
  unfold rpc. inversion 1 as [| |c' k' r tr' o' Hk]; subst. exists r.
  destruct r; inversion Hk; subst; (split; [done|]); by intros a [=].
Qed.

Lemma exec_rpc_as_inv {A} c (as_ : reply → prog A) tr o :
  (∀ r, (∃ a, as_ r = Ret a) ∨ as_ r = Fail TypeError) →
  exec (rpc c ≫= as_) tr o → ∃ r, tr = [(c, r)] ∧ ∀ a, o = Ok a → as_ r = Ret a.
Proof.
  intros Has Hx.
  destruct (exec_bind_inv _ _ _ _ Hx) as [(e & He & ->)|(r' & tr1 & tr2 & -> & H1 & H2)].
  - apply exec_rpc_inv in He as (r & -> & _). exists r. by split.
  - apply exec_rpc_inv in H1 as (r & -> & Hr). rewrite (Hr r' eq_refl) in H2.
    exists r. destruct (Has r) as [[a Ha]|Ha]; rewrite Ha in H2 |- *;
      inversion H2; subst; (split; [done|]); by intros ? [= ->].
Qed.


(** What a funding transaction that serializes looks like: each output
    holds more than 100000 satoshis. *)
Lemma create_checkdatasig_tx_unsigned_wire utxos count tx hex :
  create_checkdatasig_tx_unsigned utxos count = Ok tx → ToHex tx = Ok hex →
  ∃ u, head utxos = Some u ∧ 1 ≤ count
       ∧ length (raw_vout hex) = Z.to_nat count
       ∧ 100000 < int_of_decimal (satoshi_round (utxo_amount u) * Qc_of_Z COIN) / count.
Proof.
  intros Htx Hhex.
  apply create_checkdatasig_tx_unsigned_inv in Htx
    as (u & rest & sg & pk & fee & -> & Hc & _ & _ & Hfee & ->).
  apply ToHex_inv in Hhex as [_ Hout]. simpl in Hout.
  exists u. split_and!; [done|done| |].
  - apply (f_equal length) in Hout. simpl in Hout.
    rewrite length_replicate, length_map in Hout. lia.
  - destruct (raw_vout hex) as [|[a sa] outs]; [done|]. simpl in Hout.
    inversion Hout as [[Ha Hsa Hrest]].
    destruct fee as [f|q]; simpl in Ha; [|done].
    by apply fee_of_int_inv in Hfee as [Hv _].
Qed.

(** In every run of [create_checkdatasig_tx], whatever the node replies:
    the unspent outputs are asked for first, and nothing else is asked unless
    a transaction was built from the first of them and serialized; the one
    request that may follow is to sign exactly that serialization, which
    fits the wire formats, has [count] outputs and more than 100000 satoshis
    in each. *)
Theorem create_checkdatasig_tx_signs_what_it_built (count : Z) (tr : trace)
    (o : result rawtx) :
  exec (create_checkdatasig_tx count) tr o →
  (∃ r, tr = [(ListUnspent, r)] ∧ ∀ signed, o ≠ Ok signed)
  ∨ (∃ utxos u tx hex r,
       tr = [(ListUnspent, RUtxos utxos); (SignRawTransaction hex, r)]
       ∧ head utxos = Some u ∧ 1 ≤ count
       ∧ create_checkdatasig_tx_unsigned utxos count = Ok tx
       ∧ ToHex tx = Ok hex
       ∧ wire_ok hex
       ∧ length (raw_vout hex) = Z.to_nat count
       ∧ 100000 < int_of_decimal (satoshi_round (utxo_amount u) * Qc_of_Z COIN) / count
       ∧ ∀ signed, o = Ok signed → r = RHex signed).
Proof.
  unfold create_checkdatasig_tx. intros Hx.
  destruct (exec_bind_inv _ _ _ _ Hx) as [(e & He & ->)|(utxos & tr1 & tr2 & -> & H1 & H2)].
  { apply exec_rpc_as_inv in He as (r & -> & _); [|as_cases]. left. by exists r. }
  apply exec_rpc_as_inv in H1 as (r & -> & Hr); [|as_cases].
  specialize (Hr utxos eq_refl). destruct r; try done. injection Hr as ->.
  destruct (exec_bind_inv _ _ _ _ H2) as [(e & He & ->)|(tx & tr1 & tr3 & -> & H3 & H4)].
  { apply exec_lift_inv in He as [-> _]. left. by eexists. }
  apply exec_lift_inv in H3 as [-> Htx].
  destruct (exec_bind_inv _ _ _ _ H4) as [(e & He & ->)|(hex & tr1 & tr4 & -> & H5 & H6)].
  { apply exec_lift_inv in He as [-> _]. left. by eexists. }
  apply exec_lift_inv in H5 as [-> Hhex].
  apply exec_rpc_as_inv in H6 as (r & -> & Hr); [|as_cases].
  right.
  destruct (create_checkdatasig_tx_unsigned_wire utxos count tx hex) as (u & ? & ? & ? & ?);
    [done..|].
  exists utxos, u, tx, hex, r. split_and!; try done.
  - by eapply ToHex_wire_ok.
  - intros signed ->. specialize (Hr signed eq_refl). destruct r; try done. by injection Hr as ->.
Qed.

Lemma create_checkdatasig_tx_signs_what_it_built_witness :
  ∃ tr o,
    exec (create_checkdatasig_tx 25) tr o
    ∧ ((∃ r, tr = [(ListUnspent, r)] ∧ ∀ signed, o ≠ Ok signed)
       ∨ (∃ hex r, tr !! 1%nat = Some (SignRawTransaction hex, r) ∧ wire_ok hex
                   ∧ length (raw_vout hex) = 25%nat)).
Proof.
  exists (interp example_wallet
            (create_checkdatasig_tx 25) tt).2,
         (interp example_wallet
            (create_checkdatasig_tx 25) tt).1.1.
  split; [apply interp_exec_run|].
  destruct (create_checkdatasig_tx_signs_what_it_built 25 _ _
              (interp_exec_run example_wallet
                 (create_checkdatasig_tx 25)
                 tt))
    as [Hl|(utxos & u & tx & hex & r & Htr & _ & _ & _ & _ & Hw & Hlen & _)].
  - left. exact Hl.
  - right. exists hex, r. rewrite Htr. split; [reflexivity|]. split; [exact Hw|exact Hlen].
Defined.

(** ** The first spend *)

Section FirstSpend.
Context `{Hashing} `{Framework}.



End FirstSpend.


(** ** Building on the tip *)

Section NextBlockFacts.
Context `{Hashing} `{Framework}.



End NextBlockFacts.


(** ** Adding transactions to a block *)

Section AddTxFacts.
Context `{Hashing}.

Lemma add_tx_nonce fuel b tx b' :
  add_tx fuel b tx = Ok b' → nNonce b ≤ nNonce b' ≤ nNonce b + Z.of_nat fuel.
Proof.
  unfold add_tx, solve. cbv zeta. destruct (calc_merkle_root _) as [root|]; [|done].
  rewrite bind_Ok. simpl. intros Hs.
  by apply solve_loop_inv in Hs as (_ & _ & _ & _ & _ & Hn).
Qed.

(** [add_tx] composes: two calls leave the transactions the block had in
    place and append the two new ones in the order of the calls, without
    looking whether the block holds them already; the previous hash and the
    time stay as they were, the block is ready again, and the nonce never
    goes back, since [solve] goes on from the nonce the block has. *)
Theorem add_tx_appends_in_order (fuel : nat) (b b1 b2 : CBlock) (tx1 tx2 : CTransaction) :
  add_tx fuel b tx1 = Ok b1 → add_tx fuel b1 tx2 = Ok b2 →
  vtx b2 = vtx b ++ [tx1; tx2]
  ∧ hashPrevBlock b2 = hashPrevBlock b ∧ nTime b2 = nTime b
  ∧ block_ready b2
  ∧ nNonce b ≤ nNonce b1 ≤ nNonce b2
  ∧ nNonce b2 ≤ nNonce b + 2 * Z.of_nat fuel.
Proof.
  intros H1 H2.
  apply add_tx_nonce in H1 as Hn1. apply add_tx_nonce in H2 as Hn2.
  apply add_tx_inv in H1 as (Hv1 & _ & _ & Hp1 & Ht1).
  apply add_tx_inv in H2 as (Hv2 & Hm2 & Hw2 & Hp2 & Ht2).
  split_and!; try congruence; try lia.
  - by rewrite Hv2, Hv1, <- app_assoc.
  - by split.
Qed.

End AddTxFacts.

Lemma add_tx_appends_in_order_witness :
  ∃ b1 b2,
    add_tx (H := example_hashing) 64 example_block (FromHex example_three_outputs) = Ok b1
    ∧ add_tx (H := example_hashing) 64 b1 (FromHex example_three_outputs) = Ok b2
    ∧ vtx b2 = [create_coinbase 132; FromHex example_three_outputs;
                FromHex example_three_outputs].
Proof.
  eassert (E1 : add_tx (H := example_hashing) 64 example_block
                  (FromHex example_three_outputs) = Ok _) by (vm_compute; reflexivity).
  match type of E1 with
  | _ = Ok ?b =>
      eassert (E2 : add_tx (H := example_hashing) 64 b (FromHex example_three_outputs)
                    = Ok _) by (vm_compute; reflexivity)
  end.
  eexists _, _. split; [exact E1|]. split; [exact E2|].
  exact (proj1 (add_tx_appends_in_order (H := example_hashing) _ _ _ _ _ _ E1 E2)).
Defined.

(** ** The requests of the test *)

Section RequestConstants.
Context `{Hashing} `{Framework}.

Lemma hoare_climb_any I rounds :
  I GetBlockchainInfo → I GetBestBlockHash → (∀ b, I (Yield (accepted b))) →
  ∀ i, hoare (climb rounds i) I (λ _, True).
Proof.
  intros H1 H2 H3. induction rounds as [|k IH]; intros i; [by apply hoare_ret|].
  rewrite climb_S.
  eapply hoare_bind; [by apply hoare_next_block|]. intros b _.
  eapply hoare_bind; [apply hoare_yield, H3|]. intros _ _. apply IH.
Qed.

Lemma hoare_waitFor_loop_pause I sleeps fn msg :
  hoare fn I (λ _, True) → I (Sleep sleepAmt) →
  hoare (waitFor_loop sleeps fn msg) I (λ _, True).
Proof.
  intros Hfn Hs. induction sleeps as [|k IH].
  - rewrite waitFor_loop_O.
    eapply hoare_bind; [exact Hfn|]. intros [] _; [by apply hoare_ret|apply hoare_fail].
  - rewrite waitFor_loop_S.
    eapply hoare_bind; [exact Hfn|]. intros [] _; [by apply hoare_ret|].
    eapply hoare_bind; [by apply hoare_sleep|]. intros _ _. exact IH.
Qed.

Lemma hoare_reorg_deactivate_pause I txid nov fork :
  I GetRawMempool → (∀ h, I (InvalidateBlock h)) → I (Sleep sleepAmt) →
  hoare (reorg_deactivate txid nov fork) I (λ _, True).
Proof.
  intros H1 H2 H3. unfold reorg_deactivate.
  eapply hoare_bind; [by apply hoare_in_mempool|]. intros present _.
  eapply hoare_bind; [apply hoare_assert|]. intros _ _.
  eapply hoare_bind; [apply hoare_sha256_of|]. intros h _.
  eapply hoare_bind; [apply hoare_rpc, H2|]. intros _ _.
  eapply hoare_bind; [apply hoare_waitFor_loop_pause; [by apply hoare_in_mempool|done]|].
  intros _ _.
  eapply hoare_bind; [apply hoare_sha256_of|]. intros h' _.
  eapply hoare_bind; [apply hoare_rpc, H2|]. intros _ _.
  apply hoare_waitFor_loop_pause; [|done].
  eapply hoare_bind; [by apply hoare_in_mempool|]. intros p _. by apply hoare_ret.
Qed.

Lemma request_constants_accepted b : request_constants (Yield (accepted b)).
Proof. simpl. exists b, ExpectTrue. split; [reflexivity|by left]. Qed.

Lemma request_constants_rejected b :
  request_constants (Yield (rejected b (Some (mkReject 16 "bad-blk-signatures")))).
Proof. simpl. eexists b, _. split; [reflexivity|by right]. Qed.

Lemma hoare_get_tests_constants : hoare get_tests request_constants (λ _, True).
Proof.
  unfold get_tests.
  eapply hoare_bind; [apply hoare_rpc; by left|]. intros _ _.
  eapply hoare_bind; [by apply hoare_create_checkdatasig_tx|]. intros tx_hex _.
  eapply hoare_bind; [apply hoare_rpc_as; [done|as_cases]|]. intros txid _.
  eapply hoare_bind; [by apply hoare_in_mempool|]. intros present _.
  eapply hoare_bind; [apply hoare_assert|]. intros _ _.
  eapply hoare_bind; [apply hoare_rpc; by right|]. intros _ _.
  eapply hoare_bind; [by apply hoare_in_mempool|]. intros present' _.
  eapply hoare_bind; [apply hoare_assert|]. intros _ _.
  eapply hoare_bind; [apply hoare_lift_True|]. intros spendable _.
  eapply hoare_bind; [apply hoare_rpc_as; [done|as_cases]|]. intros rand _.
  eapply hoare_bind; [apply hoare_lift_True|]. intros [tx0 rest] _.
  eapply hoare_bind; [apply hoare_lift_True|]. intros tx0_hex _.
  eapply hoare_bind; [by apply hoare_assert_raises|]. intros _ _.
  eapply hoare_bind; [by apply hoare_rpc|]. intros _ _.
  eapply hoare_bind; [apply hoare_climb_any; [done|done|apply request_constants_accepted]|].
  intros _ _.
  eapply hoare_bind; [by apply hoare_best_mediantime|]. intros mtp1 _.
  eapply hoare_bind; [apply hoare_assert|]. intros _ _.
  eapply hoare_bind; [by apply hoare_assert_raises|]. intros _ _.
  eapply hoare_bind; [by apply hoare_next_block|]. intros b _.
  eapply hoare_bind; [apply hoare_lift_True|]. intros b' _.
  eapply hoare_bind; [apply hoare_yield, request_constants_rejected|]. intros _ _.
  eapply hoare_bind; [by apply hoare_next_block|]. intros fork_block _.
  eapply hoare_bind; [apply hoare_yield, request_constants_accepted|]. intros _ _.
  eapply hoare_bind; [by apply hoare_best_mediantime|]. intros mtp2 _.
  eapply hoare_bind; [apply hoare_assert|]. intros _ _.
  eapply hoare_bind; [apply hoare_rpc_as; [done|as_cases]|]. intros tx0id _.
  eapply hoare_bind; [by apply hoare_in_mempool|]. intros present'' _.
  eapply hoare_bind; [apply hoare_assert|]. intros _ _.
  eapply hoare_bind; [by apply hoare_next_block|]. intros nov _.
  eapply hoare_bind; [apply hoare_lift_True|]. intros nov' _.
  eapply hoare_bind; [apply hoare_yield, request_constants_accepted|]. intros _ _.
  by apply hoare_reorg_deactivate_pause.
Qed.

(** In every run of [get_tests], passing or failing, whatever the node
    replies: blocks are generated 125 or 1 at a time, the clock is only ever
    set to the activation time, 800 random bits are drawn, every pause lasts
    [sleepAmt], and every test instance holds exactly one block, expected to
    be accepted or to be rejected with code 16 and reason
    [bad-blk-signatures]; a bare rejection is never expected. *)
Theorem get_tests_request_constants (tr : trace) (o : result unit) :
  exec get_tests tr o → requests_all request_constants tr.
Proof. intros Hx. exact (proj1 (hoare_get_tests_constants _ _ Hx)). Qed.

End RequestConstants.

Lemma get_tests_request_constants_witness :
  requests_all (request_constants (H := example_framework)) example_trace.
Proof.
  exact (get_tests_request_constants (H := example_hashing) (H0 := example_framework)
           example_trace (Ok tt) example_run_passes).
Defined.
